(** * CORHOH TEI/XML creator: a shallow embedding of [XML-Creator_CORHOH.py]

    The Python program reads a metadata table and a directory of interview
    transcripts and writes one TEI document.  Python strings are sequences of
    Unicode code points; they are modelled as lists of [N].  The parts of the
    Python runtime the program calls ([str] methods, the [re] patterns,
    [xml.sax.saxutils.escape]) are embedded in module [Py]; the program itself
    in module [Corhoh]. *)

From Stdlib Require Import List NArith ZArith Bool Arith Lia String Ascii.
From Stdlib Require Import Permutation DecimalString.
Import ListNotations.
Open Scope N_scope.
Open Scope list_scope.

(* ===================================================================== *)
(** ** The Python runtime used by the program *)
(* ===================================================================== *)

Module Py.

(** A character is a Unicode code point, a [str] a sequence of them. *)
Definition char := N.
Definition str := list char.

(** An ASCII literal as a [str] (one code point per byte). *)
Definition txt (s : string) : str := map N_of_ascii (list_ascii_of_string s).

Definition LF : char := 10.
Definition CR : char := 13.
Definition dq : char := 34.   (* the double quote *)
Definition sq : char := 39.   (* the apostrophe *)

Definition str_eqb (a b : str) : bool :=
  if list_eq_dec N.eq_dec a b then true else false.

(** [str.isspace] on one character; it is also the class [\s] of a [str]
    pattern. *)
Definition isspace (c : char) : bool :=
  ((9 <=? c) && (c <=? 13)) || ((28 <=? c) && (c <=? 32))
  || (c =? 133) || (c =? 160) || (c =? 5760)
  || ((8192 <=? c) && (c <=? 8202))
  || (c =? 8232) || (c =? 8233) || (c =? 8239) || (c =? 8287) || (c =? 12288).

(** First code points of the runs of ten decimal digits (category Nd,
    Unicode 14); the mathematical digits U+1D7CE..U+1D7FF are five runs. *)
Definition decimal_runs : list N :=
  [ 48; 1632; 1776; 1984; 2406; 2534; 2662; 2790; 2918; 3046; 3174; 3302;
    3430; 3558; 3664; 3792; 3872; 4160; 4240; 6112; 6160; 6470; 6608; 6784;
    6800; 6992; 7088; 7232; 7248; 42528; 43216; 43264; 43472; 43504; 43600;
    44016; 65296; 66720; 68912; 69734; 69872; 69942; 70096; 70384; 70736;
    70864; 71248; 71360; 71472; 71904; 72016; 72784; 73040; 73120; 92768;
    92864; 93008; 120782; 120792; 120802; 120812; 120822; 123200; 123632;
    125264; 130032 ].

(** [str.isdecimal] on one character; it is the class [\d] of a [str]
    pattern. *)
Definition isdecimal (c : char) : bool :=
  existsb (fun lo => (lo <=? c) && (c <=? lo + 9)) decimal_runs.

(** The line boundaries of [str.splitlines]. *)
Definition is_linebreak (c : char) : bool :=
  ((10 <=? c) && (c <=? 13)) || ((28 <=? c) && (c <=? 30))
  || (c =? 133) || (c =? 8232) || (c =? 8233).

(** [str.splitlines()]: [cur] holds the characters of the line being read,
    last first.  CR LF is one boundary; no empty last line is produced. *)
Fixpoint splitlines_from (cur : str) (s : str) : list str :=
  match s with
  | [] => match cur with [] => [] | _ :: _ => [rev cur] end
  | c :: s' =>
      if c =? CR then
        match s' with
        | d :: s'' =>
            if d =? LF then rev cur :: splitlines_from [] s''
            else rev cur :: splitlines_from [] s'
        | [] => rev cur :: splitlines_from [] s'
        end
      else if is_linebreak c then rev cur :: splitlines_from [] s'
      else splitlines_from (c :: cur) s'
  end.

Definition splitlines (s : str) : list str := splitlines_from [] s.

Fixpoint dropwhile (p : char -> bool) (s : str) : str :=
  match s with
  | [] => []
  | c :: s' => if p c then dropwhile p s' else s
  end.

(** [str.lstrip()], [str.rstrip()], [str.strip()] without argument. *)
Definition lstrip (s : str) : str := dropwhile isspace s.
Definition rstrip (s : str) : str := rev (dropwhile isspace (rev s)).
Definition strip (s : str) : str := rstrip (lstrip s).

(** [str.rstrip(chars)]. *)
Definition rstrip_chars (chars : str) (s : str) : str :=
  rev (dropwhile (fun c => existsb (N.eqb c) chars) (rev s)).

(** [sep.join(parts)]. *)
Fixpoint join (sep : str) (parts : list str) : str :=
  match parts with
  | [] => []
  | [x] => x
  | x :: rest => x ++ sep ++ join sep rest
  end.

(** A literal assembled from adjacent pieces (an f-string). *)
Definition cat (parts : list str) : str := List.concat parts.

(** [s.startswith(p)]. *)
Fixpoint startswith (p s : str) : bool :=
  match p, s with
  | [], _ => true
  | _ :: _, [] => false
  | a :: p', b :: s' => (a =? b) && startswith p' s'
  end.

(** [old in s]. *)
Fixpoint contains (old s : str) : bool :=
  startswith old s ||
  match s with
  | [] => false
  | _ :: s' => contains old s'
  end.

(** [s.replace(old, new)] for a non-empty [old]: a left-to-right scan that
    replaces each occurrence and resumes after it; [skip] counts the
    characters of the occurrence still to be passed over. *)
Fixpoint replace_from (old new : str) (skip : nat) (s : str) : str :=
  match s with
  | [] => []
  | c :: s' =>
      match skip with
      | S k => replace_from old new k s'
      | O =>
          if startswith old s
          then new ++ replace_from old new (List.length old - 1) s'
          else c :: replace_from old new 0 s'
      end
  end.

(** [s.replace(old, new)]; an empty [old] matches before every character
    and at the end. *)
Definition replace (old new : str) (s : str) : str :=
  match old with
  | [] => new ++ flat_map (fun c => c :: new) s
  | _ :: _ => replace_from old new 0 s
  end.

(** [xml.sax.saxutils.escape(data)] with no extra entities: the ampersand
    first, then the two angle brackets. *)
Definition escape (data : str) : str :=
  let data := replace (txt "&") (txt "&amp;") data in
  let data := replace (txt ">") (txt "&gt;") data in
  let data := replace (txt "<") (txt "&lt;") data in
  data.

(** [str(n)] for a non-negative integer. *)
Definition str_of_int (n : N) : str := txt (NilZero.string_of_uint (N.to_uint n)).

(** *** Regular expressions

    The two patterns of the program are sequences of greedy character-class
    repetitions and literals.  Each piece is a matcher in continuation
    style, as in a backtracking engine: it tries the longest repetition
    first and gives characters back while the rest of the pattern fails.
    The continuation receives the text matched by the piece and the text
    that remains. *)

Section Regex.
Context {A : Type}.

(** [p*], greedy. *)
Fixpoint re_star (p : char -> bool) (s : str) (k : str -> str -> option A)
  : option A :=
  match s with
  | [] => k [] []
  | c :: s' =>
      if p c then
        match re_star p s' (fun m r => k (c :: m) r) with
        | Some x => Some x
        | None => k [] s
        end
      else k [] s
  end.

(** [p+], greedy. *)
Definition re_plus (p : char -> bool) (s : str) (k : str -> str -> option A)
  : option A :=
  match s with
  | [] => None
  | c :: s' => if p c then re_star p s' (fun m r => k (c :: m) r) else None
  end.

(** A literal character. *)
Definition re_lit (c : char) (s : str) (k : str -> option A) : option A :=
  match s with
  | [] => None
  | x :: s' => if x =? c then k s' else None
  end.

(** [$] without [re.MULTILINE]: the end of the string, or just before a
    newline that ends the string. *)
Definition re_dollar (s : str) (r : option A) : option A :=
  match s with
  | [] => r
  | [c] => if c =? LF then r else None
  | _ => None
  end.
End Regex.

(** The class [.] without [re.DOTALL]: anything but a newline. *)
Definition re_dot (c : char) : bool := negb (c =? LF).

End Py.

(* ===================================================================== *)
(** ** The program *)
(* ===================================================================== *)

Module Corhoh.
Import Py.

(** *** Exceptions, logging, containers *)

Inductive exn :=
| KeyError (msg : str)
| OSError (msg : str)
| ParserError (msg : str)
| SystemExit (code : N).

Inductive level := INFO | WARNING | ERROR.

(** One call of [logging.info] / [logging.warning]: level and formatted
    message. *)
Definition log_record := (level * str)%type.

(** A Python [dict] with string keys and values, in insertion order. *)
Definition Dict := list (str * str).

Fixpoint dict_set (d : Dict) (k v : str) : Dict :=
  match d with
  | [] => [(k, v)]
  | (k', v') :: d' =>
      if str_eqb k' k then (k', v) :: d' else (k', v') :: dict_set d' k v
  end.

(** [d.get(key, default)]. *)
Fixpoint dict_get (d : Dict) (key default : str) : str :=
  match d with
  | [] => default
  | (k, v) :: d' => if str_eqb k key then v else dict_get d' key default
  end.

(** A pandas [DataFrame]: column labels and rows of cells. *)
Record DataFrame (V : Type) := mkDataFrame {
  columns : list str;
  values : list (list V)
}.
Arguments mkDataFrame {V}.
Arguments columns {V}.
Arguments values {V}.

(** [df.fillna(v)]: a cell read with [dtype=str] is a string or missing
    ([None]); a missing cell becomes [v]. *)
Definition fillna (v : str) (df : DataFrame (option str)) : DataFrame str :=
  mkDataFrame (columns df)
    (map (map (fun cell => match cell with Some x => x | None => v end))
         (values df)).

(** [df.to_dict(orient="records")]. *)
Definition to_dict_records (df : DataFrame str) : list Dict :=
  map (fun r => fold_left (fun d kv => dict_set d (fst kv) (snd kv))
                          (combine (columns df) r) [])
      (values df).

(** *** Indentation policy *)

Record Indent := mkIndent {
  CORHOH : str; TEXT : str; L2 : str; L3 : str; L4 : str; L5 : str; L6 : str
}.

Definition IND : Indent :=
  {| CORHOH := txt "    ";
     TEXT := txt "        ";
     L2 := txt "            ";
     L3 := txt "                ";
     L4 := txt "                    ";
     L5 := txt "                        ";
     L6 := txt "                            " |}.

(** *** The marker patterns

    Anchored at the start of the line: optional whitespace, the letter
    ([Q] or [A]), one or more digits (group 1), optional whitespace, a
    colon, optional whitespace, the rest of the line (group 2, any
    characters but newlines), optional whitespace, end of line.  A match
    gives the pair of the two groups. *)
Definition marker_re (letter : char) (line : str) : option (str * str) :=
  re_star isspace line (fun _ s1 =>
  re_lit letter s1 (fun s2 =>
  re_plus isdecimal s2 (fun g1 s3 =>
  re_star isspace s3 (fun _ s4 =>
  re_lit 58 s4 (fun s5 =>
  re_star isspace s5 (fun _ s6 =>
  re_star re_dot s6 (fun g2 s7 =>
  re_star isspace s7 (fun _ s8 =>
  re_dollar s8 (Some (g1, g2)))))))))).

Definition _Q_RE : str -> option (str * str) := marker_re 81.
Definition _A_RE : str -> option (str * str) := marker_re 65.

(** *** [smart_read]: the repair table *)

Definition replacements : list (str * str) :=
  [ ([213], [sq]);                      (* O tilde *)
    ([212], [sq]);                      (* O circumflex *)
    ([210], [dq]);                      (* O grave *)
    ([211], [dq]);                      (* O acute *)
    ([209], [8212]);                    (* N tilde -> em dash *)
    ([8249], [227]);                    (* single guillemet -> a tilde *)
    ([8730; 239] ++ txt "t", sq :: txt "t");
    ([8730; 239] ++ txt "s", sq :: txt "s");
    ([8730; 239] ++ txt "ll", sq :: txt "ll");
    ([8730; 239], [sq]) ].              (* square root, i diaeresis *)

(** One turn of the loop [for old, new in replacements.items()]. *)
Definition apply_replacement (content : str) (rule : str * str) : str :=
  let (old, new) := rule in
  if contains old content then replace old new content else content.

Definition apply_replacements (rules : list (str * str)) (content : str) : str :=
  fold_left apply_replacement rules content.

(** *** [fixed_header_block] *)

Definition fixed_header_block (total_q total_a : N) (nl : str) : str :=
  let abstract_text := cat
    [ txt "CORHOH (Text Corpus of Holocaust Oral Histories) comprises 500 oral histories ";
      txt "from Holocaust survivors, with each narrative retrieved via the Let Them Speak ";
      txt "Project (Toth 2021). The corpus has been processed and enriched with metadata ";
      txt "describing both the testimony givers and the interviews. Non-content technical ";
      txt "material has been removed, and each interviewer question and survivor answer ";
      txt "has been assigned a unique identifier. The corpus follows TEI guidelines ";
      txt "(TEI Consortium 2023). In this version, the dataset contains ";
      str_of_int total_q; txt " questions and "; str_of_int total_a;
      txt " answers, providing a substantial ";
      txt "interdisciplinary resource for research in the humanities and social sciences. ";
      txt "CORHOH is sourced from the United States Holocaust Memorial Museum (USHMM) ";
      txt "and is publicly available under a CC BY-NC-SA 4.0 license." ] in
  cat
    [ CORHOH IND; txt "<teiHeader>"; nl;
      TEXT IND; txt "<fileDesc>"; nl;
      L2 IND; txt "<titleStmt>"; nl;
      L3 IND; txt "<title>CORHOH: Text Corpus of Holocaust Oral Histories</title>"; nl;
      L3 IND; txt "<respStmt>"; nl;
      L4 IND; txt "<resp>Mendeley Repository: https://data.mendeley.com/datasets/gz7v268252/2</resp>"; nl;
      L3 IND; txt "</respStmt>"; nl;
      L2 IND; txt "</titleStmt>"; nl;
      L2 IND; txt "<publicationStmt>"; nl;
      L3 IND; txt "<publisher>Data in Brief: https://www.sciencedirect.com/science/article/pii/S2352340925001581</publisher>"; nl;
      L3 IND; txt "<date>2025</date>"; nl;
      L3 IND; txt "<availability>"; nl;
      L4 IND; txt "<licence>All data used in this study comply with ethical guidelines of the United States Holocaust Memorial Museum (https://www.ushmm.org/copyright-and-legal-information/terms-of-use), and the oral histories included in the CORHOH corpus are publicly available under the CC BY-NC-SA 4.0 license.</licence>"; nl;
      L3 IND; txt "</availability>"; nl;
      L2 IND; txt "</publicationStmt>"; nl;
      L2 IND; txt "<sourceDesc>"; nl;
      L3 IND; txt "<bibl>"; nl;
      L4 IND; txt "<title>CORHOH</title>"; nl;
      L4 IND; txt "<author>Daban Q. Jaff</author>"; nl;
      L4 IND; txt "<pubPlace>Universit"; [228]; txt "t Erfurt, Philosophische Fakult"; [228]; txt "t</pubPlace>"; nl;
      L4 IND; txt "<date>2025</date>"; nl;
      L3 IND; txt "</bibl>"; nl;
      L3 IND; txt "<p>Data collected from oral history interviews from Let Them Speak: https://lts.fortunoff.library.yale.edu/about</p>"; nl;
      L2 IND; txt "</sourceDesc>"; nl;
      TEXT IND; txt "</fileDesc>"; nl;
      TEXT IND; txt "<profileDesc>"; nl;
      L2 IND; txt "<abstract>"; escape abstract_text; txt "</abstract>"; nl;
      TEXT IND; txt "</profileDesc>"; nl;
      TEXT IND; txt "<revisionDesc>"; nl;
      L2 IND; txt "<change when="; [dq]; txt "2025-02-01"; [dq]; txt ">Initial TEI encoding applied.</change>"; nl;
      L2 IND; txt "<change when="; [dq]; txt "2026-01-19"; [dq]; txt ">Modified release: corrected a duplicate inclusion; this version contains one oral history per survivor across the 500 records. Counts updated to ";
        str_of_int total_q; txt " questions and "; str_of_int total_a; txt " answers.</change>"; nl;
      TEXT IND; txt "</revisionDesc>"; nl;
      CORHOH IND; txt "</teiHeader>"; nl ].

(** *** [parse_transcript_to_turns] *)

(** [(kind, label, utterance)]. *)
Definition Turn := (str * str * str)%type.

Definition question : str := txt "question".
Definition answer : str := txt "answer".

(** The variables of the function: the list [turns] and the accumulator
    the closure [flush] shares with the loop. *)
Record parser_state := mkParser {
  turns : list Turn;
  cur_type : option str;
  cur_label : option str;
  cur_buf : list str
}.

(** [x or ""] for an optional string. *)
Definition or_empty (x : option str) : str :=
  match x with
  | Some (c :: s) => c :: s
  | _ => []
  end.

Definition flush (st : parser_state) : parser_state :=
  match cur_type st with
  | None => st
  | Some ty =>
      mkParser
        (turns st ++ [(ty, or_empty (cur_label st), strip (join [LF] (cur_buf st)))])
        (cur_type st) (cur_label st) (cur_buf st)
  end.

(** The body of [for raw_line in text.splitlines()]. *)
Definition parse_line (st : parser_state) (raw_line : str) : parser_state :=
  let line := rstrip_chars [LF] raw_line in
  let m_q := _Q_RE line in
  let m_a := _A_RE line in
  match m_q with
  | Some (g1, g2) =>
      let st := flush st in
      mkParser (turns st) (Some question) (Some (txt "Q" ++ g1)) [g2]
  | None =>
      match m_a with
      | Some (g1, g2) =>
          let st := flush st in
          mkParser (turns st) (Some answer) (Some (txt "A" ++ g1)) [g2]
      | None =>
          match cur_type st with
          | Some _ =>
              mkParser (turns st) (cur_type st) (cur_label st) (cur_buf st ++ [line])
          | None => st
          end
      end
  end.

Definition parse_transcript_to_turns (text : str) : list Turn :=
  turns (flush (fold_left parse_line (splitlines text) (mkParser [] None None []))).

(** *** [build_record_xml] *)

(** The inner function [field]. *)
Definition field (row : Dict) (key : str) : str :=
  escape (strip (dict_get row key [])).

(** One block per turn, as appended to [div_blocks]. *)
Definition div_block (nl : str) (t : Turn) : str :=
  let '(ttype, label, utt) := t in
  let role := if str_eqb ttype question then txt "interviewer" else txt "interviewee" in
  cat
    [ L5 IND; txt "<div type="; [dq]; ttype; [dq]; txt ">"; nl;
      L6 IND; txt "<speaker role="; [dq]; role; [dq]; txt ">"; escape label; txt "</speaker>"; nl;
      L6 IND; txt "<u>"; escape utt; txt "</u>"; nl;
      L5 IND; txt "</div>" ].

(** The fragment of one record around its [div_blocks]. *)
Definition record_xml (row : Dict) (div_blocks : list str) (nl : str) : str :=
  let doc_id := field row (txt "Documents ID") in
  cat
    [ TEXT IND; txt "<text id="; [dq]; doc_id; [dq]; txt ">"; nl;
      L2 IND; txt "<meta>"; nl;
      L3 IND; txt "<Oral_History_Details>"; nl;
      L4 IND; txt "<Documents_ID>"; doc_id; txt "</Documents_ID>"; nl;
      L4 IND; txt "<Rec_Date>"; field row (txt "Rec_Date"); txt "</Rec_Date>"; nl;
      L4 IND; txt "<Rec_Length>"; field row (txt "Length"); txt "</Rec_Length>"; nl;
      L4 IND; txt "<A_Number>"; field row (txt "A_#"); txt "</A_Number>"; nl;
      L4 IND; txt "<Q_Number>"; field row (txt "Q_#"); txt "</Q_Number>"; nl;
      L4 IND; txt "<permission_type>"; field row (txt "permission_type"); txt "</permission_type>"; nl;
      L4 IND; txt "<Link>"; field row (txt "Link"); txt "</Link>"; nl;
      L3 IND; txt "</Oral_History_Details>"; nl;
      L3 IND; txt "<Individual_Meta_Data>"; nl;
      L4 IND; txt "<Name>"; field row (txt "Name"); txt "</Name>"; nl;
      L4 IND; txt "<DOB>"; field row (txt "DOB"); txt "</DOB>"; nl;
      L4 IND; txt "<Gender>"; field row (txt "Gender"); txt "</Gender>"; nl;
      L4 IND; txt "<Born>"; field row (txt "Born"); txt "</Born>"; nl;
      L4 IND; txt "<Ghetto>"; field row (txt "Ghetto"); txt "</Ghetto>"; nl;
      L4 IND; txt "<Camp>"; field row (txt "Camp"); txt "</Camp>"; nl;
      L4 IND; txt "<Imm_Date>"; field row (txt "Imm_Date"); txt "</Imm_Date>"; nl;
      L4 IND; txt "<Imm_Destination>"; field row (txt "Imm_Destination"); txt "</Imm_Destination>"; nl;
      L3 IND; txt "</Individual_Meta_Data>"; nl;
      L2 IND; txt "</meta>"; nl;
      L2 IND; txt "<text>"; nl;
      L3 IND; txt "<body>"; nl;
      L4 IND; txt "<div type="; [dq]; txt "interview"; [dq]; txt ">"; nl;
      L5 IND; txt "<head>Interview Transcript</head>"; nl;
      join nl div_blocks ++ (match div_blocks with [] => [] | _ :: _ => nl end);
      L4 IND; txt "</div>"; nl;
      L3 IND; txt "</body>"; nl;
      L2 IND; txt "</text>"; nl;
      TEXT IND; txt "</text>" ].

(** [sum(1 for t in turns if t[0] == kind)]. *)
Definition count_kind (kind : str) (ts : list Turn) : N :=
  fold_left (fun acc t => if str_eqb (fst (fst t)) kind then acc + 1 else acc) ts 0.

Definition build_record_xml (row : Dict) (transcript_text : str) (nl : str)
  : str * N * N :=
  let turns := parse_transcript_to_turns transcript_text in
  let div_blocks := map (div_block nl) turns in
  let xml := record_xml row div_blocks nl in
  let q_count := count_kind question turns in
  let a_count := count_kind answer turns in
  (xml, q_count, a_count).

(** *** The functions that touch files

    The file system, the two codecs, [pathlib] and [pandas.read_csv] belong
    to the environment of a run. *)

Definition bytes := list Init.Byte.byte.
Definition Path := str.

Section Run.

(** [path.exists()], which raises for an [OSError] other than the file not
    being there, and [path.read_bytes()]. *)
Variable path_exists : Path -> exn + bool.
Variable read_bytes : Path -> exn + bytes.
(** [parent / name]. *)
Variable joinpath : Path -> str -> Path.
(** [raw.decode("utf-8-sig")], [None] for [UnicodeDecodeError], and
    [raw.decode("cp1252", errors="replace")]. *)
Variable decode_utf_8_sig : bytes -> option str.
Variable decode_cp1252_replace : bytes -> str.
(** [pd.read_csv(path, sep=None, engine="python", dtype=str)]. *)
Variable pd_read_csv : Path -> exn + DataFrame (option str).
(** [path.write_text(text, encoding="utf-8")]. *)
Variable write_text : Path -> str -> exn + unit.

Definition smart_read (path : Path) : exn + str :=
  match read_bytes path with
  | inl e => inl e
  | inr raw =>
      let content :=
        match decode_utf_8_sig raw with
        | Some content => content
        | None => decode_cp1252_replace raw
        end in
      inr (apply_replacements replacements content)
  end.

Definition read_metadata (metadata_csv : Path) : exn + DataFrame str :=
  match pd_read_csv metadata_csv with
  | inl e => inl e
  | inr raw =>
      let df := fillna [] raw in
      if existsb (str_eqb (txt "Documents ID")) (columns df)
      then inr df
      else inl (KeyError (txt "Metadata file must contain a 'Documents ID' column."))
  end.

(** The variables of [generate_corhoh_xml] that its loop updates, and the
    log records issued so far. *)
Record run_state := mkRun {
  records : list str;
  total_q : N;
  total_a : N;
  missing_transcripts : N;
  log : list log_record
}.

(** The body of the loop, for the [i]-th row of [n]. *)
Definition process_row (texts_dir : Path) (n i : N) (row : Dict)
           (st : run_state) : exn + run_state :=
  let doc_id := strip (dict_get row (txt "Documents ID") []) in
  let txt_path := joinpath texts_dir (doc_id ++ txt ".txt") in
  let read :=
    match path_exists txt_path with
    | inl e => inl e
    | inr found =>
        if negb found then
          inr (missing_transcripts st + 1,
               log st ++ [(WARNING, cat [ txt "Missing transcript for Documents ID '";
                                          doc_id; txt "' ("; txt_path; txt ")" ])],
               [])
        else
          match smart_read txt_path with
          | inl e => inl e
          | inr transcript => inr (missing_transcripts st, log st, transcript)
          end
    end in
  match read with
  | inl e => inl e
  | inr (missing, lg, transcript) =>
      let '(rec_xml, q, a) := build_record_xml row transcript [LF] in
      let lg :=
        if i mod 50 =? 0
        then lg ++ [(INFO, cat [ txt "Processed "; str_of_int i; txt "/";
                                 str_of_int n; txt " records..." ])]
        else lg in
      inr (mkRun (records st ++ [rec_xml]) (total_q st + q) (total_a st + a)
                 missing lg)
  end.

(** [for i, row in enumerate(rows, start=1)], from index [i] on. *)
Fixpoint process_rows (texts_dir : Path) (n i : N) (rows : list Dict)
         (st : run_state) : exn + run_state :=
  match rows with
  | [] => inr st
  | row :: rest =>
      match process_row texts_dir n i row st with
      | inl e => inl e
      | inr st' => process_rows texts_dir n (i + 1) rest st'
      end
  end.

(** The document assembled from the final state. *)
Definition tei_document (st : run_state) : str :=
  cat
    [ txt "<?xml version="; [dq]; txt "1.0"; [dq]; txt " encoding="; [dq];
        txt "UTF-8"; [dq]; txt "?>"; [LF];
      txt "<TEI xmlns="; [dq]; txt "http://www.tei-c.org/ns/1.0"; [dq];
        txt ">"; [LF];
      fixed_header_block (total_q st) (total_a st) [LF];
      [LF]; CORHOH IND; txt "<CORHOH>"; [LF];
      join [LF] (records st) ++ [LF];
      CORHOH IND; txt "</CORHOH>"; [LF];
      txt "</TEI>"; [LF] ].

(** A completed run returns the text written to [output_xml] and the log
    records issued; the write is the last thing that can raise. *)
Definition generate_corhoh_xml (metadata_csv texts_dir output_xml : Path)
  : exn + (str * list log_record) :=
  match read_metadata metadata_csv with
  | inl e => inl e
  | inr df =>
      let rows := to_dict_records df in
      match process_rows texts_dir (N.of_nat (List.length (values df))) 1 rows
                         (mkRun [] 0 0 0 []) with
      | inl e => inl e
      | inr st =>
          let lg := log st ++
            [(INFO, cat [ txt "Total questions: "; str_of_int (total_q st);
                          txt " | Total answers: "; str_of_int (total_a st) ])] in
          let lg :=
            if missing_transcripts st =? 0 then lg
            else lg ++
              [(WARNING, cat [ txt "Missing transcripts: ";
                               str_of_int (missing_transcripts st);
                               txt " (records were still created with empty text)" ])] in
          let tei := tei_document st in
          match write_text output_xml tei with
          | inl e => inl e
          | inr _ => inr (tei, lg ++ [(INFO, txt "Wrote output: " ++ output_xml)])
          end
      end
  end.

End Run.

(** *** [configure_logging] *)

(** The numeric value of a level of the [logging] module. *)
Definition levelno (l : level) : N :=
  match l with
  | INFO => 20
  | WARNING => 30
  | ERROR => 40
  end.

(** [logging.DEBUG]. *)
Definition DEBUG : N := 10.

(** The level the function gives to [logging.basicConfig]. *)
Definition configure_logging (verbosity : Z) : N :=
  let level := levelno WARNING in
  if (verbosity =? 1)%Z then levelno INFO
  else if (verbosity >=? 2)%Z then DEBUG
  else level.

(** The records a logger set to [threshold] lets through. *)
Definition emitted (threshold : N) (lg : list log_record) : list log_record :=
  filter (fun r => threshold <=? levelno (fst r)) lg.

(** *** [main] *)

(** The [argparse.Namespace] that [parse_args] returns. *)
Record Namespace := mkNamespace {
  metadata : str;
  texts_dir : str;
  output : str;
  verbose : Z
}.

(** What a call of [main] that returns has done: its return value, the
    logging level it set, the text it wrote to the output path, if any, and
    the log records it issued. *)
Record outcome := mkOutcome {
  exit_code : N;
  level_set : N;
  written : option str;
  issued : list log_record
}.

Section Main.
Variable path_exists : Path -> exn + bool.
Variable read_bytes : Path -> exn + bytes.
Variable joinpath : Path -> str -> Path.
Variable decode_utf_8_sig : bytes -> option str.
Variable decode_cp1252_replace : bytes -> str.
Variable pd_read_csv : Path -> exn + DataFrame (option str).
Variable write_text : Path -> str -> exn + unit.
(** [parse_args(argv)]: [argparse] raises [SystemExit] for arguments it
    does not accept and for a request for help. *)
Variable parse_args : option (list str) -> exn + Namespace.

Definition main (argv : option (list str)) : exn + outcome :=
  match parse_args argv with
  | inl e => inl e
  | inr args =>
      let level := configure_logging (verbose args) in
      let metadata_csv := metadata args in
      let texts_dir := texts_dir args in
      let output_xml := output args in
      match path_exists metadata_csv with
      | inl e => inl e
      | inr found_metadata =>
          if negb found_metadata then
            inr (mkOutcome 2 level None
                   [(ERROR, txt "Metadata file not found: " ++ metadata_csv)])
          else
            match path_exists texts_dir with
            | inl e => inl e
            | inr found_texts =>
                if negb found_texts then
                  inr (mkOutcome 2 level None
                         [(ERROR, txt "Texts directory not found: " ++ texts_dir)])
                else
                  match generate_corhoh_xml path_exists read_bytes joinpath
                          decode_utf_8_sig decode_cp1252_replace pd_read_csv
                          write_text metadata_csv texts_dir output_xml with
                  | inl e => inl e
                  | inr (tei, lg) => inr (mkOutcome 0 level (Some tei) lg)
                  end
            end
      end
  end.
End Main.

End Corhoh.

Import Py Corhoh.

(* ===================================================================== *)
(** ** Vocabulary of the statements *)
(* ===================================================================== *)

(** Strings made of whitespace, of decimal digits, and lines free of line
    boundaries. *)
Definition spaces (s : str) : Prop := Forall (fun c => isspace c = true) s.
Definition digits (s : str) : Prop := Forall (fun c => isdecimal c = true) s.
Definition clean (l : str) : Prop := Forall (fun c => is_linebreak c = false) l.

(** A line the question pattern, resp. the answer pattern, matches. *)
Definition is_question_line (line : str) : bool :=
  match _Q_RE line with Some _ => true | None => false end.
Definition is_answer_line (line : str) : bool :=
  match _A_RE line with Some _ => true | None => false end.

Definition marker_count (line : str) : nat :=
  ((if is_question_line line then 1 else 0) + (if is_answer_line line then 1 else 0))%nat.

(** The open turn of a parser state counts for one. *)
Definition pending (st : parser_state) : nat :=
  match cur_type st with Some _ => 1 | None => 0 end.

(** Labels: the letter followed by one or more digits. *)
Definition question_label (l : str) : Prop :=
  exists ds, ds <> [] /\ digits ds /\ l = 81 :: ds.
Definition answer_label (l : str) : Prop :=
  exists ds, ds <> [] /\ digits ds /\ l = 65 :: ds.

Definition well_labelled (t : Turn) : Prop :=
  (fst (fst t) = question /\ question_label (snd (fst t))) \/
  (fst (fst t) = answer /\ answer_label (snd (fst t))).

(** The invariant of the parser loop: the completed turns and the open one
    are well labelled. *)
Definition open_ok (st : parser_state) : Prop :=
  match cur_type st with
  | None => True
  | Some ty => well_labelled (ty, or_empty (cur_label st), [])
  end.
Definition parser_ok (st : parser_state) : Prop :=
  Forall well_labelled (turns st) /\ open_ok st.

(** [replace] for a non-empty key, and membership of a character. *)
Definition rep (old new s : str) : str := replace_from old new 0 s.
Definition mem (c : char) (s : str) : bool := existsb (N.eqb c) s.

(** *** A sufficient test for two repair rules to commute *)

Fixpoint strip_prefix (p s : str) : option str :=
  match p, s with
  | [], _ => Some s
  | _ :: _, [] => None
  | a :: p', b :: s' => if a =? b then strip_prefix p' s' else None
  end.

(** When the key [u1] extends the key [u2], the replacement [v1] extends
    [v2] by the same text. *)
Definition compat (u1 v1 u2 v2 : str) : bool :=
  match strip_prefix u2 u1 with
  | Some d => str_eqb v1 (v2 ++ d)
  | None => true
  end.

(** A one-character key against a key that starts with another character:
    neither rule reads or writes what the other one looks for. *)
Definition distinct_ok (r1 r2 : str * str) : bool :=
  match r1, r2 with
  | ([c], h :: n1'), (a :: u, n2) =>
      negb (mem c (a :: u)) && negb (mem c n2)
      && negb (mem a (h :: n1')) && negb (mem h (a :: u))
  | _, _ => false
  end.

(** Two keys that start with the same character, which occurs nowhere else
    in the two rules. *)
Definition same_head_ok (r1 r2 : str * str) : bool :=
  match r1, r2 with
  | (a1 :: u1, h1 :: v1'), (a2 :: u2, h2 :: v2') =>
      (a1 =? a2)
      && negb (mem a1 u1) && negb (mem a1 u2)
      && negb (mem a1 (h1 :: v1')) && negb (mem a1 (h2 :: v2'))
      && negb (mem h2 u1) && negb (mem h1 u2)
      && compat u1 (h1 :: v1') u2 (h2 :: v2')
      && compat u2 (h2 :: v2') u1 (h1 :: v1')
  | _, _ => false
  end.

Definition rule_eqb (r1 r2 : str * str) : bool :=
  str_eqb (fst r1) (fst r2) && str_eqb (snd r1) (snd r2).

Definition rules_commute (r1 r2 : str * str) : bool :=
  rule_eqb r1 r2 || distinct_ok r1 r2 || distinct_ok r2 r1 || same_head_ok r1 r2.

(** *** Runs *)

Definition sum_N (l : list N) : N := fold_right N.add 0 l.

(** The three components of what [build_record_xml] returns. *)
Definition xml_of (r : str * N * N) : str := fst (fst r).
Definition q_of (r : str * N * N) : N := snd (fst r).
Definition a_of (r : str * N * N) : N := snd r.

Section RunVocabulary.
Variable path_exists : Path -> exn + bool.
Variable read_bytes : Path -> exn + bytes.
Variable joinpath : Path -> str -> Path.
Variable decode_utf_8_sig : bytes -> option str.
Variable decode_cp1252_replace : bytes -> str.

(** The path the run looks a row's transcript up at. *)
Definition transcript_path (texts_dir : Path) (row : Dict) : Path :=
  joinpath texts_dir (strip (dict_get row (txt "Documents ID") []) ++ txt ".txt").

(** The transcript text the run uses for a row. *)
Definition transcript_for (texts_dir : Path) (row : Dict) : exn + str :=
  match path_exists (transcript_path texts_dir row) with
  | inl e => inl e
  | inr true => smart_read read_bytes decode_utf_8_sig decode_cp1252_replace
                           (transcript_path texts_dir row)
  | inr false => inr []
  end.

(** [r] is what the record renderer returns for [row] in this run. *)
Definition renders (texts_dir : Path) (row : Dict) (r : str * N * N) : Prop :=
  exists t, transcript_for texts_dir row = inr t /\ build_record_xml row t [LF] = r.
End RunVocabulary.

(** Two file systems hold the same transcript for a row: the test for the
    file has the same result in both, and where the file is there, reading
    it gives the same result. *)
Definition same_transcript (joinpath : Path -> str -> Path)
           (path_exists1 path_exists2 : Path -> exn + bool)
           (read_bytes1 read_bytes2 : Path -> exn + bytes)
           (texts_dir : Path) (row : Dict) : Prop :=
  path_exists1 (transcript_path joinpath texts_dir row)
  = path_exists2 (transcript_path joinpath texts_dir row)
  /\ (path_exists1 (transcript_path joinpath texts_dir row) = inr true ->
      read_bytes1 (transcript_path joinpath texts_dir row)
      = read_bytes2 (transcript_path joinpath texts_dir row)).

(** What the document has before and after its header block. *)
Definition tei_prologue_parts : list str :=
  [ txt "<?xml version="; [dq]; txt "1.0"; [dq]; txt " encoding="; [dq];
      txt "UTF-8"; [dq]; txt "?>"; [LF];
    txt "<TEI xmlns="; [dq]; txt "http://www.tei-c.org/ns/1.0"; [dq];
      txt ">"; [LF] ].
Definition tei_epilogue_parts (records : list str) : list str :=
  [ [LF]; CORHOH IND; txt "<CORHOH>"; [LF];
    join [LF] records ++ [LF];
    CORHOH IND; txt "</CORHOH>"; [LF];
    txt "</TEI>"; [LF] ].
Definition tei_prologue : str := cat tei_prologue_parts.
Definition tei_epilogue (records : list str) : str := cat (tei_epilogue_parts records).

(** *** The parser, line by line *)

(** The parser after the text is split into lines:
    [parse_transcript_to_turns text] is [parse_lines (splitlines text)]. *)
Definition parse_lines (lines : list str) : list Turn :=
  turns (flush (fold_left parse_line lines (mkParser [] None None []))).

(** What a marker line opens: the kind, the label and the rest of the line
    (the question pattern is tried first). *)
Definition marker_line (line : str) : option (str * str * str) :=
  match _Q_RE line with
  | Some (g1, g2) => Some (question, txt "Q" ++ g1, g2)
  | None =>
      match _A_RE line with
      | Some (g1, g2) => Some (answer, txt "A" ++ g1, g2)
      | None => None
      end
  end.

(** Kind and label of a turn, and those a line contributes. *)
Definition head_of (t : Turn) : str * str := (fst (fst t), snd (fst t)).
Definition heads_of_line (line : str) : list (str * str) :=
  match marker_line line with
  | Some (kind, label, _) => [(kind, label)]
  | None => []
  end.

(** The lines that remain start a new turn, or there are none. *)
Definition starts_turn (rest : list str) : Prop :=
  match rest with
  | [] => True
  | r :: _ => marker_line r <> None
  end.

(** A string that neither starts nor ends with whitespace. *)
Definition trimmed (s : str) : Prop :=
  (forall c rest, s = c :: rest -> isspace c = false) /\
  (forall c init, s = init ++ [c] -> isspace c = false).

(** The state with [done] put before its completed turns. *)
Definition prepend (done : list Turn) (st : parser_state) : parser_state :=
  mkParser (done ++ turns st) (cur_type st) (cur_label st) (cur_buf st).

(** Kinds and labels a parser state stands for: those of the completed
    turns, then that of the open one. *)
Definition heads (st : parser_state) : list (str * str) :=
  map head_of (turns st) ++
  match cur_type st with
  | Some ty => [(ty, or_empty (cur_label st))]
  | None => []
  end.

(** *** Escaping, character by character *)

(** What [escape] writes for one character. *)
Definition escape_char (c : char) : str :=
  if c =? 38 then txt "&amp;"
  else if c =? 62 then txt "&gt;"
  else if c =? 60 then txt "&lt;"
  else [c].

(** One of the three characters [escape] rewrites. *)
Definition reserved (c : char) : bool := (c =? 38) || (c =? 60) || (c =? 62).

(** *** The repaired text *)

(** A rule that leaves no occurrence of its key: the key's first character
    is not written back, and the first character written is not in the rest
    of the key. *)
Definition removes_ok (r : str * str) : bool :=
  match r with
  | (a :: u, h :: new') => negb (mem a (h :: new')) && negb (mem h u)
  | _ => false
  end.

(** The first characters of the keys of the table. *)
Definition triggers : str := map (fun r => hd 0 (fst r)) replacements.

(** *** Accounts of a run *)

Definition is_warning (r : log_record) : bool :=
  match fst r with WARNING => true | _ => false end.
Definition is_info (r : log_record) : bool :=
  match fst r with INFO => true | _ => false end.

(** The rows whose transcript file does not exist. *)
Definition missing_rows (path_exists : Path -> exn + bool)
           (joinpath : Path -> str -> Path)
           (texts_dir : Path) (rows : list Dict) : list Dict :=
  filter (fun row => match path_exists (transcript_path joinpath texts_dir row) with
                     | inr false => true
                     | _ => false
                     end) rows.

(** *** Scanning a text assembled from literals and escaped values *)

(** [p] and [t] differ at a position both have: [p] is no prefix of any
    text that starts with [t]. *)
Fixpoint mismatch (p t : str) : bool :=
  match p, t with
  | a :: p', b :: t' => negb (a =? b) || mismatch p' t'
  | _, _ => false
  end.

(** No occurrence of [p] starts inside the literal [lit], whatever
    follows it. *)
Fixpoint lit_ok (p lit : str) : bool :=
  match lit with
  | [] => true
  | _ :: lit' => mismatch p lit && lit_ok p lit'
  end.

(** The opening tag of the block of a turn of the given kind. *)
Definition turn_div_open (kind : str) : str :=
  txt "<div type=" ++ [dq] ++ kind ++ [dq] ++ txt ">".

(** The body of a record without turns: the interview element holds its
    heading only. *)
Definition empty_body : str :=
  cat [ L2 IND; txt "<text>"; [LF];
        L3 IND; txt "<body>"; [LF];
        L4 IND; txt "<div type="; [dq]; txt "interview"; [dq]; txt ">"; [LF];
        L5 IND; txt "<head>Interview Transcript</head>"; [LF];
        L4 IND; txt "</div>"; [LF];
        L3 IND; txt "</body>"; [LF];
        L2 IND; txt "</text>"; [LF];
        TEXT IND; txt "</text>" ].

(** *** A small environment to run the program in

    Two metadata rows; only the first has a transcript file.  The sample
    codec decodes ASCII. *)
Module Sample.
Definition metadata_csv : Path := txt "Cor_META_updated.csv".
Definition texts_dir : Path := txt "500_numbered".
Definition output_xml : Path := txt "CORHOH.xml".
Definition transcript : str :=
  txt "Q1: Hello" ++ [LF] ++ txt "world" ++ [LF] ++ txt "A1: Hi there".
Definition joinpath (parent : Path) (name : str) : Path := parent ++ txt "/" ++ name.
Definition path_exists (p : Path) : exn + bool :=
  inr (str_eqb p (txt "500_numbered/1.txt")).
Definition read_bytes (p : Path) : exn + bytes :=
  if str_eqb p (txt "500_numbered/1.txt")
  then inr (list_byte_of_string "Q1: Hello" ++ [Byte.x0a]
            ++ list_byte_of_string "world" ++ [Byte.x0a]
            ++ list_byte_of_string "A1: Hi there")
  else inl (OSError (txt "No such file or directory")).
Definition decode_utf_8_sig (raw : bytes) : option str :=
  if forallb (fun b => Byte.to_N b <? 128) raw
  then Some (map Byte.to_N raw) else None.
Definition decode_cp1252_replace (raw : bytes) : str := map Byte.to_N raw.
Definition table : DataFrame (option str) :=
  mkDataFrame [txt "Documents ID"; txt "Name"]
              [ [Some (txt "1"); Some (txt "Ann")]; [Some (txt "2"); None] ].
Definition pd_read_csv (p : Path) : exn + DataFrame (option str) :=
  if str_eqb p metadata_csv then inr table
  else inl (OSError (txt "No such file or directory")).
(** Writing succeeds. *)
Definition write_text (p : Path) (text : str) : exn + unit := inr tt.
(** A second file system with one more, unrelated file. *)
Definition path_exists' (p : Path) : exn + bool :=
  inr (str_eqb p (txt "500_numbered/1.txt") || str_eqb p (txt "500_numbered/notes.txt")).
(** A row whose identifier holds a double quote. *)
Definition quoted_row : Dict := [(txt "Documents ID", txt "a" ++ [dq] ++ txt "b")].
End Sample.

(** *** More sample inputs *)
Module SampleMore.
(** A transcript with a line of preamble. *)
Definition with_preamble : str := txt "Recorded in 1995" ++ [LF] ++ txt "Q1: Hi".
(** A transcript of three turns, the second of two lines. *)
Definition three_turns : str :=
  txt "Q1: Hello" ++ [LF] ++ txt "world" ++ [LF] ++ txt "A1: Hi there" ++ [LF]
  ++ txt "again" ++ [LF] ++ txt "Q2: Bye".
(** A table with its header row only. *)
Definition empty_table : DataFrame (option str) :=
  mkDataFrame [txt "Documents ID"; txt "Name"] [].
Definition pd_read_csv (p : Path) : exn + DataFrame (option str) := inr empty_table.
(** Arguments that name a metadata file the sample file system lacks. *)
Definition args : Namespace :=
  mkNamespace Sample.metadata_csv Sample.texts_dir Sample.output_xml 0.
Definition parse_args (argv : option (list str)) : exn + Namespace := inr args.
End SampleMore.

(* ===================================================================== *)
(** ** Properties *)
(* ===================================================================== *)

(** *** The matchers *)

Section RegexFacts.
Context {A : Type}.

Lemma re_star_inv (p : char -> bool) (s : str) (k : str -> str -> option A) (r : A) :
  re_star p s k = Some r ->
  exists m rest, s = m ++ rest /\ Forall (fun c => p c = true) m /\ k m rest = Some r.
Proof.
  revert k. induction s as [|c s IH]; intros k H; simpl in H.
  - exists [], []. auto.
  - destruct (p c) eqn:Hp.
    + destruct (re_star p s (fun m r0 => k (c :: m) r0)) eqn:Hs.
      * inversion H; subst a.
        apply IH in Hs. destruct Hs as (m & rest & -> & Hm & Hk).
        exists (c :: m), rest. auto.
      * exists [], (c :: s). auto.
    + exists [], (c :: s). auto.
Qed.

Lemma re_plus_inv (p : char -> bool) (s : str) (k : str -> str -> option A) (r : A) :
  re_plus p s k = Some r ->
  exists m rest, s = m ++ rest /\ m <> [] /\
                 Forall (fun c => p c = true) m /\ k m rest = Some r.
Proof.
  destruct s as [|c s]; simpl; [discriminate|].
  destruct (p c) eqn:Hp; [|discriminate].
  intros H. apply re_star_inv in H. destruct H as (m & rest & -> & Hm & Hk).
  exists (c :: m), rest. repeat split; auto. discriminate.
Qed.

Lemma re_lit_inv (c : char) (s : str) (k : str -> option A) (r : A) :
  re_lit c s k = Some r -> exists rest, s = c :: rest /\ k rest = Some r.
Proof.
  destruct s as [|x s]; simpl; [discriminate|].
  destruct (N.eqb_spec x c); [|discriminate].
  subst. intros H. eauto.
Qed.

Lemma re_dollar_inv (s : str) (o : option A) (r : A) :
  re_dollar s o = Some r -> (s = [] \/ s = [LF]) /\ o = Some r.
Proof.
  destruct s as [|c [|d s]]; simpl; auto; [|discriminate].
  destruct (N.eqb_spec c LF); [|discriminate]. subst. auto.
Qed.
End RegexFacts.

Lemma marker_re_inv (letter : char) (line g1 g2 : str) :
  marker_re letter line = Some (g1, g2) ->
  exists ws1 ws2 ws3 ws4 tail,
    line = ws1 ++ letter :: g1 ++ ws2 ++ 58 :: ws3 ++ g2 ++ ws4 ++ tail /\
    spaces ws1 /\ g1 <> [] /\ digits g1 /\ spaces ws2 /\ spaces ws3 /\
    Forall (fun c => c <> LF) g2 /\ spaces ws4 /\ (tail = [] \/ tail = [LF]).
Proof.
  unfold marker_re. intros H.
  apply re_star_inv in H. destruct H as (ws1 & s1 & -> & Hws1 & H).
  apply re_lit_inv in H. destruct H as (s2 & -> & H).
  apply re_plus_inv in H. destruct H as (d & s3 & -> & Hne & Hd & H).
  apply re_star_inv in H. destruct H as (ws2 & s4 & -> & Hws2 & H).
  apply re_lit_inv in H. destruct H as (s5 & -> & H).
  apply re_star_inv in H. destruct H as (ws3 & s6 & -> & Hws3 & H).
  apply re_star_inv in H. destruct H as (u & s7 & -> & Hu & H).
  apply re_star_inv in H. destruct H as (ws4 & s8 & -> & Hws4 & H).
  apply re_dollar_inv in H. destruct H as (Htail & H).
  inversion H; subst d u.
  exists ws1, ws2, ws3, ws4, s8. repeat split; auto.
  eapply Forall_impl; [|exact Hu]. intros c Hc ->. discriminate.
Qed.

(** *** Lines *)

Lemma splitlines_from_clean_pair (s : str) :
  (forall cur, clean cur -> Forall clean (splitlines_from cur s)) /\
  (forall c cur, clean cur -> Forall clean (splitlines_from cur (c :: s))).
Proof.
  assert (Hrev : forall cur, clean cur -> clean (rev cur)).
  { intros cur H. apply Forall_rev. exact H. }
  induction s as [|d s [IH1 IH2]].
  - split.
    + intros [|x cur] H; simpl; repeat constructor. apply (Hrev (x :: cur)); auto.
    + intros c cur H. simpl.
      destruct (c =? CR); [repeat constructor; auto|].
      destruct (is_linebreak c) eqn:Hc; [repeat constructor; auto|].
      repeat constructor. apply (Hrev (c :: cur)). constructor; auto.
  - split; [apply IH2|].
    intros c cur H. simpl splitlines_from.
    destruct (c =? CR).
    + destruct (d =? LF); constructor; auto.
      * apply IH1. constructor.
      * apply (IH2 d []). constructor.
    + destruct (is_linebreak c) eqn:Hc.
      * constructor; auto. apply (IH2 d []). constructor.
      * apply (IH2 d (c :: cur)). constructor; auto.
Qed.

Lemma splitlines_clean (text : str) : Forall clean (splitlines text).
Proof. apply splitlines_from_clean_pair. constructor. Qed.

Lemma dropwhile_head (p : char -> bool) (s : str) :
  match s with [] => True | c :: _ => p c = false end -> dropwhile p s = s.
Proof. destruct s as [|c s]; simpl; auto. intros ->. reflexivity. Qed.

Lemma rstrip_newline_clean (l : str) : clean l -> rstrip_chars [LF] l = l.
Proof.
  intros H. unfold rstrip_chars.
  rewrite dropwhile_head; [apply rev_involutive|].
  apply Forall_rev in H. destruct (rev l) as [|c r]; auto.
  inversion H as [|? ? Hc _]; subst. simpl.
  destruct (N.eqb_spec c LF) as [->|]; [discriminate Hc|reflexivity].
Qed.

(** *** Counting turns *)

Lemma first_nonspace_unique (ws1 ws2 : str) (c1 c2 : char) (r1 r2 : str) :
  spaces ws1 -> spaces ws2 -> isspace c1 = false -> isspace c2 = false ->
  ws1 ++ c1 :: r1 = ws2 ++ c2 :: r2 -> c1 = c2.
Proof.
  intros H1. revert ws2. induction H1 as [|x ws1 Hx _ IH]; intros ws2 H2 Hc1 Hc2 E.
  - destruct H2 as [|y ws2 Hy _]; simpl in E; inversion E; subst; congruence.
  - destruct H2 as [|y ws2 Hy H2]; simpl in E; inversion E; subst.
    + congruence.
    + eapply IH; eauto.
Qed.

Lemma markers_disjoint (line : str) :
  is_question_line line = true -> is_answer_line line = false.
Proof.
  unfold is_question_line, is_answer_line, _Q_RE, _A_RE.
  destruct (marker_re 81 line) as [[q1 q2]|] eqn:Hq; [intros _|discriminate].
  destruct (marker_re 65 line) as [[a1 a2]|] eqn:Ha; [exfalso|reflexivity].
  apply marker_re_inv in Hq. destruct Hq as (w1 & ? & ? & ? & ? & Eq & Hw1 & _).
  apply marker_re_inv in Ha. destruct Ha as (v1 & ? & ? & ? & ? & Ea & Hv1 & _).
  rewrite Eq in Ea.
  apply first_nonspace_unique in Ea; auto. discriminate.
Qed.

Lemma flush_length (st : parser_state) :
  List.length (turns (flush st)) = (List.length (turns st) + pending st)%nat.
Proof.
  unfold flush, pending. destruct (cur_type st); simpl.
  - rewrite length_app. reflexivity.
  - lia.
Qed.

Lemma parse_line_count (st : parser_state) (line : str) :
  clean line ->
  (List.length (turns (parse_line st line)) + pending (parse_line st line) =
   List.length (turns st) + pending st + marker_count line)%nat.
Proof.
  intros Hc. unfold parse_line, marker_count. rewrite (rstrip_newline_clean _ Hc).
  pose proof (markers_disjoint line) as Hd.
  unfold is_question_line, is_answer_line in *.
  destruct (_Q_RE line) as [[q1 q2]|].
  - rewrite Hd by reflexivity. cbn [turns pending cur_type]. rewrite flush_length. lia.
  - destruct (_A_RE line) as [[a1 a2]|].
    + cbn [turns pending cur_type]. rewrite flush_length. lia.
    + destruct (cur_type st) eqn:Ht; unfold pending; cbn [turns cur_type]; rewrite ?Ht; lia.
Qed.

Lemma fold_parse_count (lines : list str) (st : parser_state) :
  Forall clean lines ->
  (List.length (turns (flush (fold_left parse_line lines st))) =
   List.length (turns st) + pending st
   + List.length (filter is_question_line lines)
   + List.length (filter is_answer_line lines))%nat.
Proof.
  intros H. revert st. induction H as [|l lines Hl _ IH]; intros st; simpl.
  - rewrite flush_length. lia.
  - rewrite IH, (parse_line_count st l Hl). unfold marker_count.
    destruct (is_question_line l), (is_answer_line l); simpl; lia.
Qed.

Lemma parse_count (text : str) :
  (List.length (parse_transcript_to_turns text) =
   List.length (filter is_question_line (splitlines text))
   + List.length (filter is_answer_line (splitlines text)))%nat.
Proof.
  unfold parse_transcript_to_turns.
  rewrite fold_parse_count by apply splitlines_clean. reflexivity.
Qed.

(** *** Kinds and labels *)

Lemma str_eqb_spec (a b : str) : reflect (a = b) (str_eqb a b).
Proof. unfold str_eqb. destruct (list_eq_dec N.eq_dec a b); constructor; auto. Qed.

Lemma flush_ok (st : parser_state) :
  parser_ok st -> Forall well_labelled (turns (flush st)).
Proof.
  intros [Ht Ho]. unfold flush, open_ok in *.
  destruct (cur_type st); simpl; auto.
  apply Forall_app. split; auto.
Qed.

Lemma marker_groups (letter : char) (line g1 g2 : str) :
  marker_re letter line = Some (g1, g2) -> g1 <> [] /\ digits g1.
Proof.
  intros H. apply marker_re_inv in H.
  destruct H as (? & ? & ? & ? & ? & _ & _ & Hne & Hd & _). auto.
Qed.

Lemma parse_line_ok (st : parser_state) (raw_line : str) :
  parser_ok st -> parser_ok (parse_line st raw_line).
Proof.
  intros Hst. unfold parse_line.
  destruct (_Q_RE _) as [[q1 q2]|] eqn:Hq.
  - apply marker_groups in Hq. destruct Hq as [Hne Hd].
    split; cbn [turns]; [apply flush_ok, Hst|].
    unfold open_ok; cbn [cur_type cur_label]. left. split; [reflexivity|].
    exists q1. auto.
  - destruct (_A_RE _) as [[a1 a2]|] eqn:Ha.
    + apply marker_groups in Ha. destruct Ha as [Hne Hd].
      split; cbn [turns]; [apply flush_ok, Hst|].
      unfold open_ok; cbn [cur_type cur_label]. right. split; [reflexivity|].
      exists a1. auto.
    + destruct Hst as [Ht Ho]. unfold open_ok in *.
      destruct (cur_type st) eqn:Hty; split; auto;
        unfold open_ok; cbn [turns cur_type cur_label]; rewrite ?Hty; auto.
Qed.

Lemma fold_parse_ok (lines : list str) (st : parser_state) :
  parser_ok st -> parser_ok (fold_left parse_line lines st).
Proof.
  revert st. induction lines as [|l lines IH]; intros st H; simpl; auto.
  apply IH, parse_line_ok, H.
Qed.

Lemma parse_well_labelled (text : str) :
  Forall well_labelled (parse_transcript_to_turns text).
Proof.
  apply flush_ok, fold_parse_ok. split; [constructor|exact I].
Qed.

Lemma count_kind_cons (kind : str) (t : Turn) (ts : list Turn) :
  count_kind kind (t :: ts) =
  (if str_eqb (fst (fst t)) kind then 1 else 0) + count_kind kind ts.
Proof.
  unfold count_kind. simpl.
  set (f := fun (acc : N) (t0 : Turn) => if str_eqb (fst (fst t0)) kind then acc + 1 else acc).
  assert (H : forall l a, fold_left f l a = a + fold_left f l 0).
  { induction l as [|x l IH]; intros a; simpl; [lia|].
    rewrite (IH (f a x)), (IH (f 0 x)). unfold f.
    destruct (str_eqb _ _); lia. }
  rewrite H. destruct (str_eqb _ _); reflexivity.
Qed.

Lemma counts_add_up (ts : list Turn) :
  Forall well_labelled ts ->
  count_kind question ts + count_kind answer ts = N.of_nat (List.length ts).
Proof.
  induction 1 as [|t ts Ht _ IH]; [reflexivity|].
  rewrite !count_kind_cons. cbn [List.length]. rewrite Nat2N.inj_succ.
  destruct Ht as [[-> _]|[-> _]].
  - destruct (str_eqb_spec question question); [|congruence].
    destruct (str_eqb_spec question answer) as [E|_]; [discriminate E|]. lia.
  - destruct (str_eqb_spec answer answer); [|congruence].
    destruct (str_eqb_spec answer question) as [E|_]; [discriminate E|]. lia.
Qed.

(** *** Scanning and replacing *)

Lemma mem_cons_false (c x : char) (s : str) :
  mem c (x :: s) = false -> c <> x /\ mem c s = false.
Proof.
  unfold mem. simpl. intros H. apply orb_false_elim in H. destruct H as [H1 H2].
  split; auto. intros ->. rewrite N.eqb_refl in H1. discriminate.
Qed.

Lemma neqb (a b : char) : a <> b -> (a =? b) = false.
Proof. intros H. apply N.eqb_neq. exact H. Qed.

Lemma startswith_app (old rest : str) : startswith old (old ++ rest) = true.
Proof. induction old as [|a old IH]; simpl; auto. rewrite N.eqb_refl. exact IH. Qed.

Lemma startswith_inv (old s : str) :
  startswith old s = true -> exists rest, s = old ++ rest.
Proof.
  revert s. induction old as [|a old IH]; intros s H.
  - exists s. reflexivity.
  - destruct s as [|b s]; simpl in H; [discriminate|].
    apply andb_prop in H. destruct H as [Hab H].
    apply N.eqb_eq in Hab. subst b.
    destruct (IH _ H) as [rest ->]. exists rest. reflexivity.
Qed.

Lemma replace_from_skip (old new p rest : str) :
  replace_from old new (List.length p) (p ++ rest) = rep old new rest.
Proof.
  induction p as [|x p IH]; simpl; auto.
Qed.

Lemma rep_nil (old new : str) : rep old new [] = [].
Proof. reflexivity. Qed.

Lemma rep_match (a : char) (u new rest : str) :
  rep (a :: u) new ((a :: u) ++ rest) = new ++ rep (a :: u) new rest.
Proof.
  unfold rep. cbn [app replace_from].
  change (startswith (a :: u) (a :: u ++ rest)) with (startswith (a :: u) ((a :: u) ++ rest)).
  rewrite startswith_app.
  replace (List.length (a :: u) - 1)%nat with (List.length u) by (simpl; lia).
  rewrite replace_from_skip. reflexivity.
Qed.

Lemma rep_nomatch (old new : str) (c : char) (s : str) :
  startswith old (c :: s) = false -> rep old new (c :: s) = c :: rep old new s.
Proof. unfold rep. cbn [replace_from]. intros ->. reflexivity. Qed.

Lemma rep_other_head (a : char) (u new : str) (c : char) (s : str) :
  c <> a -> rep (a :: u) new (c :: s) = c :: rep (a :: u) new s.
Proof.
  intros H. apply rep_nomatch. simpl. rewrite neqb; auto.
Qed.

Lemma rep_free_prefix (a : char) (u new t s : str) :
  mem a t = false -> rep (a :: u) new (t ++ s) = t ++ rep (a :: u) new s.
Proof.
  induction t as [|x t IH]; intros H; [reflexivity|].
  apply mem_cons_false in H. destruct H as [Hx Ht].
  simpl app. rewrite rep_other_head by auto. rewrite IH by auto. reflexivity.
Qed.

Lemma rep_free (a : char) (u new t : str) :
  mem a t = false -> rep (a :: u) new t = t.
Proof.
  intros H. rewrite <- (app_nil_r t) at 1.
  rewrite rep_free_prefix by auto. rewrite rep_nil. apply app_nil_r.
Qed.

Lemma contains_false_cons (old : str) (c : char) (s : str) :
  contains old (c :: s) = false ->
  startswith old (c :: s) = false /\ contains old s = false.
Proof. simpl. intros H. apply orb_false_elim in H. exact H. Qed.

Lemma rep_absent (old new s : str) : contains old s = false -> rep old new s = s.
Proof.
  induction s as [|c s IH]; intros H; [reflexivity|].
  apply contains_false_cons in H. destruct H as [H1 H2].
  rewrite rep_nomatch by auto. rewrite IH by auto. reflexivity.
Qed.

(** The guard [if old in content] changes nothing. *)
Lemma apply_replacement_rep (a : char) (u new content : str) :
  apply_replacement content (a :: u, new) = rep (a :: u) new content.
Proof.
  unfold apply_replacement. destruct (contains (a :: u) content) eqn:H.
  - reflexivity.
  - symmetry. apply rep_absent. exact H.
Qed.

Lemma mem_app_false (a : char) (x y : str) :
  mem a (x ++ y) = false -> mem a x = false /\ mem a y = false.
Proof. unfold mem. rewrite existsb_app. apply orb_false_elim. Qed.

(** Two rules whose keys start with different characters. *)
Section CommuteDistinct.
Variables (c h : char) (n1' : str) (a : char) (u n2 : str).
Let n1 := h :: n1'.
Hypothesis Hc_old : mem c (a :: u) = false.
Hypothesis Hc_n2 : mem c n2 = false.
Hypothesis Ha_n1 : mem a n1 = false.
Hypothesis Hh_old : mem h (a :: u) = false.

Lemma startswith_after_single (old t : str) :
  mem c old = false -> mem h old = false ->
  startswith old (rep [c] n1 t) = startswith old t.
Proof.
  revert t. induction old as [|b old IH]; intros t Hc Hh; [reflexivity|].
  apply mem_cons_false in Hc. destruct Hc as [Hcb Hc].
  apply mem_cons_false in Hh. destruct Hh as [Hhb Hh].
  destruct t as [|y t]; [reflexivity|].
  destruct (N.eq_dec y c) as [->|Hy].
  - change (c :: t) with ([c] ++ t). rewrite rep_match. unfold n1. simpl.
    rewrite (neqb b h), (neqb b c) by congruence. reflexivity.
  - rewrite rep_other_head by auto. simpl. rewrite IH by auto. reflexivity.
Qed.

Lemma commute_distinct_le (n : nat) (s : str) :
  (List.length s <= n)%nat ->
  rep [c] n1 (rep (a :: u) n2 s) = rep (a :: u) n2 (rep [c] n1 s).
Proof.
  revert s. induction n as [|n IH]; intros s Hlen.
  - destruct s; [reflexivity|simpl in Hlen; lia].
  - destruct s as [|x s']; [reflexivity|].
    destruct (startswith (a :: u) (x :: s')) eqn:Hm.
    + apply startswith_inv in Hm. destruct Hm as [rest E]. rewrite E.
      assert (Hr : (List.length rest <= n)%nat).
      { apply (f_equal (@List.length char)) in E. rewrite length_app in E.
        simpl in E, Hlen. lia. }
      rewrite rep_match. rewrite (rep_free_prefix c [] n1 n2) by exact Hc_n2.
      rewrite (rep_free_prefix c [] n1 (a :: u)) by exact Hc_old.
      rewrite rep_match. rewrite IH by exact Hr. reflexivity.
    + rewrite (rep_nomatch _ _ _ _ Hm).
      assert (Hs : (List.length s' <= n)%nat) by (simpl in Hlen; lia).
      destruct (N.eq_dec x c) as [->|Hx].
      * change (c :: rep (a :: u) n2 s') with ([c] ++ rep (a :: u) n2 s').
        change (c :: s') with ([c] ++ s').
        rewrite !rep_match. rewrite rep_free_prefix by exact Ha_n1.
        rewrite IH by exact Hs. reflexivity.
      * rewrite (rep_other_head c [] n1 x) by exact Hx.
        assert (Hm' : startswith (a :: u) (rep [c] n1 (x :: s')) = false).
        { rewrite startswith_after_single; auto. }
        rewrite (rep_other_head c [] n1 x) in Hm' |- * by exact Hx.
        rewrite (rep_nomatch _ _ _ _ Hm'). rewrite IH by exact Hs. reflexivity.
Qed.

Lemma commute_distinct (s : str) :
  rep [c] n1 (rep (a :: u) n2 s) = rep (a :: u) n2 (rep [c] n1 s).
Proof. apply (commute_distinct_le (List.length s)). lia. Qed.
End CommuteDistinct.

(** Two rules whose keys start with the same character. *)
Section CommuteSameHead.
Variables (a : char) (u1 u2 : str) (h1 h2 : char) (v1' v2' : str).
Let v1 := h1 :: v1'.
Let v2 := h2 :: v2'.
Hypothesis Ha_u1 : mem a u1 = false.
Hypothesis Ha_u2 : mem a u2 = false.
Hypothesis Ha_v1 : mem a v1 = false.
Hypothesis Ha_v2 : mem a v2 = false.
Hypothesis Hh2_u1 : mem h2 u1 = false.
Hypothesis Hh1_u2 : mem h1 u2 = false.
Hypothesis compat12 : forall d, u1 = u2 ++ d -> v1 = v2 ++ d.
Hypothesis compat21 : forall d, u2 = u1 ++ d -> v2 = v1 ++ d.

Lemma startswith_before_rep (h : char) (v' key : str) (w s : str) :
  mem h w = false ->
  startswith w (rep key (h :: v') s) = true -> startswith w s = true.
Proof.
  revert s. induction w as [|b w IH]; intros s Hh H; [reflexivity|].
  apply mem_cons_false in Hh. destruct Hh as [Hb Hh].
  destruct s as [|y s]; [discriminate H|].
  destruct (startswith key (y :: s)) eqn:Hk.
  - exfalso. unfold rep in H. cbn [replace_from] in H. rewrite Hk in H.
    simpl in H. rewrite (neqb b h) in H by congruence. discriminate.
  - rewrite (rep_nomatch _ _ _ _ Hk) in H. simpl in H |- *.
    apply andb_prop in H. destruct H as [-> H]. simpl. eapply IH; eauto.
Qed.

Lemma startswith_same_head (w s : str) :
  startswith (a :: w) (a :: s) = startswith w s.
Proof. simpl. rewrite N.eqb_refl. reflexivity. Qed.

Lemma commute_same_head_le (n : nat) (s : str) :
  (List.length s <= n)%nat ->
  rep (a :: u1) v1 (rep (a :: u2) v2 s) = rep (a :: u2) v2 (rep (a :: u1) v1 s).
Proof.
  revert s. induction n as [|n IH]; intros s Hlen.
  - destruct s; [reflexivity|simpl in Hlen; lia].
  - destruct s as [|x s']; [reflexivity|].
    assert (Hs : (List.length s' <= n)%nat) by (simpl in Hlen; lia).
    destruct (N.eq_dec x a) as [->|Hx].
    2:{ rewrite !(rep_other_head a _ _ x) by exact Hx.
        rewrite IH by exact Hs. reflexivity. }
    destruct (startswith u1 s') eqn:E1; destruct (startswith u2 s') eqn:E2.
    + apply startswith_inv in E1. destruct E1 as [r1 E1].
      apply startswith_inv in E2. destruct E2 as [r2 E2].
      assert (Hr1 : (List.length r1 <= n)%nat).
      { rewrite E1, length_app in Hs. lia. }
      assert (Hr2 : (List.length r2 <= n)%nat).
      { rewrite E2, length_app in Hs. lia. }
      pose proof E1 as E. rewrite E2 in E. symmetry in E.
      apply app_eq_app in E. destruct E as [d [[Eu Er]|[Eu Er]]].
      * (* u1 = u2 ++ d *)
        pose proof (compat12 d Eu) as Ev.
        assert (Hd : mem a d = false).
        { rewrite Eu in Ha_u1. apply mem_app_false in Ha_u1. tauto. }
        rewrite E2 at 1. rewrite E1.
        change (a :: u2 ++ r2) with ((a :: u2) ++ r2).
        change (a :: u1 ++ r1) with ((a :: u1) ++ r1).
        rewrite !rep_match. rewrite !rep_free_prefix by assumption.
        rewrite Er. rewrite !rep_free_prefix by assumption.
        rewrite IH by exact Hr1. rewrite Ev, <- app_assoc. reflexivity.
      * (* u2 = u1 ++ d *)
        pose proof (compat21 d Eu) as Ev.
        assert (Hd : mem a d = false).
        { rewrite Eu in Ha_u2. apply mem_app_false in Ha_u2. tauto. }
        rewrite E2 at 1. rewrite E1.
        change (a :: u2 ++ r2) with ((a :: u2) ++ r2).
        change (a :: u1 ++ r1) with ((a :: u1) ++ r1).
        rewrite !rep_match. rewrite !rep_free_prefix by assumption.
        rewrite Er. rewrite !rep_free_prefix by assumption.
        rewrite IH by exact Hr2. rewrite Ev, <- app_assoc. reflexivity.
    + (* only the first key occurs here *)
      assert (N2 : startswith (a :: u2) (a :: s') = false)
        by (rewrite startswith_same_head; exact E2).
      rewrite (rep_nomatch _ _ _ _ N2).
      apply startswith_inv in E1. destruct E1 as [r1 E1]. rewrite E1.
      assert (Hr1 : (List.length r1 <= n)%nat).
      { rewrite E1, length_app in Hs. lia. }
      rewrite (rep_free_prefix a u2 v2 u1) by assumption.
      change (a :: u1 ++ rep (a :: u2) v2 r1) with ((a :: u1) ++ rep (a :: u2) v2 r1).
      change (a :: u1 ++ r1) with ((a :: u1) ++ r1).
      rewrite !rep_match. rewrite rep_free_prefix by assumption.
      rewrite IH by exact Hr1. reflexivity.
    + assert (N1 : startswith (a :: u1) (a :: s') = false)
        by (rewrite startswith_same_head; exact E1).
      rewrite (rep_nomatch _ _ _ _ N1).
      apply startswith_inv in E2. destruct E2 as [r2 E2]. rewrite E2.
      assert (Hr2 : (List.length r2 <= n)%nat).
      { rewrite E2, length_app in Hs. lia. }
      rewrite (rep_free_prefix a u1 v1 u2) by assumption.
      change (a :: u2 ++ rep (a :: u1) v1 r2) with ((a :: u2) ++ rep (a :: u1) v1 r2).
      change (a :: u2 ++ r2) with ((a :: u2) ++ r2).
      rewrite !rep_match. rewrite rep_free_prefix by assumption.
      rewrite IH by exact Hr2. reflexivity.
    + assert (N1 : startswith (a :: u1) (a :: s') = false)
        by (rewrite startswith_same_head; exact E1).
      assert (N2 : startswith (a :: u2) (a :: s') = false)
        by (rewrite startswith_same_head; exact E2).
      rewrite (rep_nomatch _ _ _ _ N1), (rep_nomatch _ _ _ _ N2).
      assert (K1 : startswith (a :: u1) (a :: rep (a :: u2) v2 s') = false).
      { rewrite startswith_same_head.
        destruct (startswith u1 (rep (a :: u2) v2 s')) eqn:K; [|reflexivity].
        apply startswith_before_rep in K; [congruence|assumption]. }
      assert (K2 : startswith (a :: u2) (a :: rep (a :: u1) v1 s') = false).
      { rewrite startswith_same_head.
        destruct (startswith u2 (rep (a :: u1) v1 s')) eqn:K; [|reflexivity].
        apply startswith_before_rep in K; [congruence|assumption]. }
      rewrite (rep_nomatch _ _ _ _ K1), (rep_nomatch _ _ _ _ K2).
      rewrite IH by exact Hs. reflexivity.
Qed.

Lemma commute_same_head (s : str) :
  rep (a :: u1) v1 (rep (a :: u2) v2 s) = rep (a :: u2) v2 (rep (a :: u1) v1 s).
Proof. apply (commute_same_head_le (List.length s)). lia. Qed.
End CommuteSameHead.

(** *** The repair table *)

Lemma strip_prefix_app (p d : str) : strip_prefix p (p ++ d) = Some d.
Proof. induction p as [|a p IH]; simpl; auto. rewrite N.eqb_refl. exact IH. Qed.

Lemma compat_sound (u1 v1 u2 v2 : str) :
  compat u1 v1 u2 v2 = true -> forall d, u1 = u2 ++ d -> v1 = v2 ++ d.
Proof.
  unfold compat. intros H d ->. rewrite strip_prefix_app in H.
  destruct (str_eqb_spec v1 (v2 ++ d)); [assumption|discriminate].
Qed.

Lemma distinct_ok_sound (r1 r2 : str * str) (s : str) :
  distinct_ok r1 r2 = true ->
  apply_replacement (apply_replacement s r2) r1 =
  apply_replacement (apply_replacement s r1) r2.
Proof.
  destruct r1 as [[|c [|? ?]] [|h n1']], r2 as [[|a u] n2]; try discriminate.
  unfold distinct_ok. intros H.
  repeat (apply andb_prop in H; destruct H as [H ?]).
  repeat match goal with X : negb _ = true |- _ => apply negb_true_iff in X end.
  rewrite !apply_replacement_rep. apply commute_distinct; assumption.
Qed.

Lemma same_head_ok_sound (r1 r2 : str * str) (s : str) :
  same_head_ok r1 r2 = true ->
  apply_replacement (apply_replacement s r2) r1 =
  apply_replacement (apply_replacement s r1) r2.
Proof.
  destruct r1 as [[|a1 u1] [|h1 v1']], r2 as [[|a2 u2] [|h2 v2']]; try discriminate.
  unfold same_head_ok. intros H.
  repeat (apply andb_prop in H; destruct H as [H ?]).
  repeat match goal with X : negb _ = true |- _ => apply negb_true_iff in X end.
  apply N.eqb_eq in H. subst a2.
  rewrite !apply_replacement_rep.
  apply commute_same_head; try assumption; apply compat_sound; assumption.
Qed.

Lemma rules_commute_sound (r1 r2 : str * str) (s : str) :
  rules_commute r1 r2 = true ->
  apply_replacement (apply_replacement s r2) r1 =
  apply_replacement (apply_replacement s r1) r2.
Proof.
  unfold rules_commute. intros H.
  apply orb_prop in H. destruct H as [H|H]; [|apply same_head_ok_sound, H].
  apply orb_prop in H. destruct H as [H|H];
    [|symmetry; apply distinct_ok_sound, H].
  apply orb_prop in H. destruct H as [H|H]; [|apply distinct_ok_sound, H].
  unfold rule_eqb in H. apply andb_prop in H. destruct H as [H1 H2].
  destruct r1, r2. simpl in *.
  destruct (str_eqb_spec s0 s2); [|discriminate].
  destruct (str_eqb_spec s1 s3); [|discriminate]. subst. reflexivity.
Qed.

Lemma replacements_commute :
  forallb (fun r1 => forallb (rules_commute r1) replacements) replacements = true.
Proof. vm_compute. reflexivity. Qed.

Lemma fold_left_permutation {A B : Type} (f : A -> B -> A) (l l' : list B) :
  Permutation l l' ->
  (forall x y, In x l -> In y l -> forall a, f (f a x) y = f (f a y) x) ->
  forall a, fold_left f l a = fold_left f l' a.
Proof.
  induction 1 as [|x l l' _ IH|x y l|l l' l'' P1 IH1 P2 IH2]; intros Hc a0.
  - reflexivity.
  - simpl. apply IH. intros; apply Hc; simpl; auto.
  - simpl. rewrite (Hc y x); [reflexivity| |]; simpl; auto.
  - rewrite IH1 by exact Hc. apply IH2.
    intros u v Hu Hv.
    apply Hc; apply (Permutation_in _ (Permutation_sym P1)); assumption.
Qed.

Lemma repair_any_order (rules : list (str * str)) (content : str) :
  Permutation replacements rules ->
  apply_replacements rules content = apply_replacements replacements content.
Proof.
  intros P. symmetry. unfold apply_replacements.
  apply fold_left_permutation; [exact P|].
  intros x y Hx Hy a0. symmetry. apply rules_commute_sound.
  pose proof replacements_commute as H.
  rewrite forallb_forall in H. specialize (H _ Hx).
  rewrite forallb_forall in H. apply H, Hy.
Qed.

(** *** The loop over the rows *)

Lemma tei_document_layout (st : run_state) :
  tei_document st =
  tei_prologue ++ fixed_header_block (total_q st) (total_a st) [LF]
               ++ tei_epilogue (records st).
Proof.
  change (tei_document st) with
    (cat (tei_prologue_parts ++ [fixed_header_block (total_q st) (total_a st) [LF]]
          ++ tei_epilogue_parts (records st))).
  unfold cat, tei_prologue, tei_epilogue, cat.
  rewrite !concat_app. cbn [List.concat]. rewrite app_nil_r. reflexivity.
Qed.

Section RunFacts.
Variable path_exists : Path -> exn + bool.
Variable read_bytes : Path -> exn + bytes.
Variable joinpath : Path -> str -> Path.
Variable decode_utf_8_sig : bytes -> option str.
Variable decode_cp1252_replace : bytes -> str.

Local Abbreviation row_step := (process_row path_exists read_bytes joinpath
                                        decode_utf_8_sig decode_cp1252_replace).
Local Abbreviation rows_loop := (process_rows path_exists read_bytes joinpath
                                          decode_utf_8_sig decode_cp1252_replace).
Local Abbreviation rendering := (renders path_exists read_bytes joinpath
                                     decode_utf_8_sig decode_cp1252_replace).

Lemma process_row_inv (texts_dir : Path) (n i : N) (row : Dict) (st st' : run_state) :
  row_step texts_dir n i row st = inr st' ->
  exists r, rendering texts_dir row r /\
            records st' = records st ++ [xml_of r] /\
            total_q st' = total_q st + q_of r /\
            total_a st' = total_a st + a_of r.
Proof.
  unfold process_row, renders, transcript_for, transcript_path.
  set (p := joinpath texts_dir _).
  destruct (path_exists p) as [e|[|]]; [discriminate| |]; simpl negb; cbv iota.
  - destruct (smart_read _ _ _ p) as [e|t]; [discriminate|].
    destruct (build_record_xml row t [LF]) as [[xml q] a] eqn:Hb.
    intros H. inversion H; subst st'; clear H. cbn [records total_q total_a].
    exists (xml, q, a). split; [exists t; auto|]. auto.
  - destruct (build_record_xml row [] [LF]) as [[xml q] a] eqn:Hb.
    intros H. inversion H; subst st'; clear H. cbn [records total_q total_a].
    exists (xml, q, a). split; [exists []; auto|]. auto.
Qed.

Lemma process_rows_inv (texts_dir : Path) (n : N) (rows : list Dict) :
  forall (i : N) (st st' : run_state),
  rows_loop texts_dir n i rows st = inr st' ->
  exists rendered,
    Forall2 (rendering texts_dir) rows rendered /\
    records st' = records st ++ map xml_of rendered /\
    total_q st' = total_q st + sum_N (map q_of rendered) /\
    total_a st' = total_a st + sum_N (map a_of rendered).
Proof.
  induction rows as [|row rows IH]; intros i st st' H.
  - inversion H; subst. exists []. simpl. rewrite app_nil_r, !N.add_0_r. auto.
  - cbn [process_rows] in H.
    destruct (process_row _ _ _ _ _ texts_dir n i row st) as [e|st1] eqn:H1;
      [discriminate|].
    apply process_row_inv in H1. destruct H1 as (r & Hr & Er & Eq & Ea).
    apply IH in H. destruct H as (rendered & Hf & Er' & Eq' & Ea').
    exists (r :: rendered). split; [constructor; auto|].
    cbn [map sum_N fold_right]. fold (sum_N (map q_of rendered)).
    fold (sum_N (map a_of rendered)).
    rewrite Er', Eq', Ea', Er, Eq, Ea, <- app_assoc. simpl. repeat split; lia.
Qed.
End RunFacts.

(** *** Escaped and scanned text *)

Lemma rep_single_flat_map (c : char) (n s : str) :
  rep [c] n s = flat_map (fun x => if x =? c then n else [x]) s.
Proof.
  induction s as [|y s IH]; [reflexivity|].
  cbn [flat_map]. destruct (N.eqb_spec y c) as [->|Hy].
  - change (c :: s) with ([c] ++ s). rewrite rep_match, IH. reflexivity.
  - rewrite rep_other_head by exact Hy. rewrite IH. reflexivity.
Qed.

Lemma flat_map_flat_map {A B C : Type} (f : A -> list B) (g : B -> list C) (l : list A) :
  flat_map g (flat_map f l) = flat_map (fun x => flat_map g (f x)) l.
Proof.
  induction l as [|x l IH]; [reflexivity|].
  cbn [flat_map]. rewrite flat_map_app, IH. reflexivity.
Qed.

Lemma escape_flat_map (s : str) : escape s = flat_map escape_char s.
Proof.
  unfold escape.
  change (replace (txt "<") (txt "&lt;")) with (rep [60] (txt "&lt;")).
  change (replace (txt ">") (txt "&gt;")) with (rep [62] (txt "&gt;")).
  change (replace (txt "&") (txt "&amp;")) with (rep [38] (txt "&amp;")).
  rewrite !rep_single_flat_map, !flat_map_flat_map.
  apply flat_map_ext. intros x. unfold escape_char.
  destruct (N.eqb_spec x 38) as [->|H38]; [reflexivity|].
  destruct (N.eqb_spec x 62) as [->|H62]; [reflexivity|].
  destruct (N.eqb_spec x 60) as [->|H60]; [reflexivity|].
  cbn [flat_map app]. rewrite (neqb x 62 H62). cbn [flat_map app].
  rewrite (neqb x 60 H60). reflexivity.
Qed.

Lemma escape_char_length (c : char) :
  (if reserved c then List.length (escape_char c) > 1
   else escape_char c = [c])%nat.
Proof.
  unfold reserved, escape_char.
  destruct (c =? 38); [simpl; lia|].
  destruct (c =? 62); [rewrite orb_true_r; simpl; lia|].
  destruct (c =? 60); [simpl; lia|]. reflexivity.
Qed.

Lemma escape_length (s : str) :
  (List.length s <= List.length (flat_map escape_char s))%nat /\
  (existsb reserved s = true ->
   List.length s < List.length (flat_map escape_char s))%nat.
Proof.
  induction s as [|c s [IH1 IH2]]; [split; [simpl; lia|discriminate]|].
  cbn [flat_map existsb List.length]. rewrite length_app.
  pose proof (escape_char_length c) as Hc.
  destruct (reserved c).
  - split; [lia|intros _; lia].
  - rewrite Hc. cbn [List.length orb]. split; [lia|]. intros H. apply IH2 in H. lia.
Qed.

Lemma escape_plain (s : str) :
  existsb reserved s = false -> flat_map escape_char s = s.
Proof.
  induction s as [|c s IH]; [reflexivity|].
  cbn [existsb flat_map]. intros H. apply orb_false_elim in H. destruct H as [Hc Hs].
  pose proof (escape_char_length c) as E. rewrite Hc in E. rewrite E, IH by exact Hs.
  reflexivity.
Qed.

Lemma contains_free_prefix (a : char) (u t0 t : str) :
  mem a t0 = false -> contains (a :: u) (t0 ++ t) = contains (a :: u) t.
Proof.
  induction t0 as [|x t0 IH]; intros H; [reflexivity|].
  apply mem_cons_false in H. destruct H as [Hx H].
  cbn [app contains startswith]. rewrite (neqb a x Hx). cbn [andb orb].
  apply IH, H.
Qed.

Lemma contains_absent_head (a : char) (u s : str) :
  mem a s = false -> contains (a :: u) s = false.
Proof.
  intros H. rewrite <- (app_nil_r s). rewrite contains_free_prefix by exact H.
  reflexivity.
Qed.

Lemma mem_app (x : char) (s t : str) : mem x (s ++ t) = mem x s || mem x t.
Proof. apply existsb_app. Qed.

Lemma mem_cons (x y : char) (s : str) : mem x (y :: s) = (x =? y) || mem x s.
Proof. reflexivity. Qed.

Lemma mem_rep_single_absent (x c : char) (n s : str) :
  mem x n = false -> mem x s = false -> mem x (rep [c] n s) = false.
Proof.
  intros Hn. induction s as [|y s IH]; intros Hs; [reflexivity|].
  apply mem_cons_false in Hs. destruct Hs as [Hy Hs].
  destruct (N.eq_dec y c) as [->|Hyc].
  - change (c :: s) with ([c] ++ s). rewrite rep_match, mem_app, Hn. apply IH, Hs.
  - rewrite rep_other_head by auto. rewrite mem_cons, (neqb x y) by auto.
    apply IH, Hs.
Qed.

Lemma mem_rep_single_gone (c : char) (n s : str) :
  mem c n = false -> mem c (rep [c] n s) = false.
Proof.
  intros Hn. induction s as [|y s IH]; [reflexivity|].
  destruct (N.eq_dec y c) as [->|Hyc].
  - change (c :: s) with ([c] ++ s). rewrite rep_match, mem_app, Hn. apply IH.
  - rewrite rep_other_head by auto. rewrite mem_cons, (neqb c y) by auto.
    apply IH.
Qed.

Lemma escape_no_angle (s : str) :
  mem 60 (escape s) = false /\ mem 62 (escape s) = false.
Proof.
  unfold escape. change (replace (txt "<") (txt "&lt;")) with (rep [60] (txt "&lt;")).
  change (replace (txt ">") (txt "&gt;")) with (rep [62] (txt "&gt;")).
  split.
  - apply mem_rep_single_gone. reflexivity.
  - apply mem_rep_single_absent; [reflexivity|].
    apply mem_rep_single_gone. reflexivity.
Qed.

(** *** The text of the header *)

Lemma uint_digits_plain (d : Decimal.uint) :
  existsb reserved (txt (NilEmpty.string_of_uint d)) = false.
Proof. induction d; simpl; auto. Qed.

Lemma str_of_int_plain (n : N) : existsb reserved (str_of_int n) = false.
Proof.
  unfold str_of_int, NilZero.string_of_uint.
  destruct (N.to_uint n) eqn:E; try reflexivity;
    rewrite <- E; try apply uint_digits_plain.
Qed.

Lemma existsb_concat {A : Type} (p : A -> bool) (l : list (list A)) :
  existsb p (List.concat l) = existsb (existsb p) l.
Proof.
  induction l as [|x l IH]; [reflexivity|].
  cbn [List.concat existsb]. rewrite existsb_app, IH. reflexivity.
Qed.

Lemma escape_plain_pieces (pieces : list str) :
  existsb (existsb reserved) pieces = false -> escape (cat pieces) = cat pieces.
Proof.
  intros H. rewrite escape_flat_map. apply escape_plain.
  unfold cat. rewrite existsb_concat. exact H.
Qed.

(** The header names the two totals twice, in this order: in its abstract
    and in its last revision note. *)
Lemma header_names_totals (tq ta : N) (nl : str) :
  exists pre mid post,
    fixed_header_block tq ta nl
    = pre
      ++ (txt "In this version, the dataset contains " ++ str_of_int tq
          ++ txt " questions and " ++ str_of_int ta ++ txt " answers, providing")
      ++ mid
      ++ (txt "Counts updated to " ++ str_of_int tq
          ++ txt " questions and " ++ str_of_int ta ++ txt " answers.")
      ++ post.
Proof.
  unfold fixed_header_block.
  rewrite escape_plain_pieces
    by (cbn [existsb]; rewrite !str_of_int_plain; vm_compute; reflexivity).
  eexists (cat
    [ CORHOH IND; txt "<teiHeader>"; nl;
      TEXT IND; txt "<fileDesc>"; nl;
      L2 IND; txt "<titleStmt>"; nl;
      L3 IND; txt "<title>CORHOH: Text Corpus of Holocaust Oral Histories</title>"; nl;
      L3 IND; txt "<respStmt>"; nl;
      L4 IND; txt "<resp>Mendeley Repository: https://data.mendeley.com/datasets/gz7v268252/2</resp>"; nl;
      L3 IND; txt "</respStmt>"; nl;
      L2 IND; txt "</titleStmt>"; nl;
      L2 IND; txt "<publicationStmt>"; nl;
      L3 IND; txt "<publisher>Data in Brief: https://www.sciencedirect.com/science/article/pii/S2352340925001581</publisher>"; nl;
      L3 IND; txt "<date>2025</date>"; nl;
      L3 IND; txt "<availability>"; nl;
      L4 IND; txt "<licence>All data used in this study comply with ethical guidelines of the United States Holocaust Memorial Museum (https://www.ushmm.org/copyright-and-legal-information/terms-of-use), and the oral histories included in the CORHOH corpus are publicly available under the CC BY-NC-SA 4.0 license.</licence>"; nl;
      L3 IND; txt "</availability>"; nl;
      L2 IND; txt "</publicationStmt>"; nl;
      L2 IND; txt "<sourceDesc>"; nl;
      L3 IND; txt "<bibl>"; nl;
      L4 IND; txt "<title>CORHOH</title>"; nl;
      L4 IND; txt "<author>Daban Q. Jaff</author>"; nl;
      L4 IND; txt "<pubPlace>Universit"; [228]; txt "t Erfurt, Philosophische Fakult"; [228]; txt "t</pubPlace>"; nl;
      L4 IND; txt "<date>2025</date>"; nl;
      L3 IND; txt "</bibl>"; nl;
      L3 IND; txt "<p>Data collected from oral history interviews from Let Them Speak: https://lts.fortunoff.library.yale.edu/about</p>"; nl;
      L2 IND; txt "</sourceDesc>"; nl;
      TEXT IND; txt "</fileDesc>"; nl;
      TEXT IND; txt "<profileDesc>"; nl;
      L2 IND; txt "<abstract>";
      txt "CORHOH (Text Corpus of Holocaust Oral Histories) comprises 500 oral histories ";
      txt "from Holocaust survivors, with each narrative retrieved via the Let Them Speak ";
      txt "Project (Toth 2021). The corpus has been processed and enriched with metadata ";
      txt "describing both the testimony givers and the interviews. Non-content technical ";
      txt "material has been removed, and each interviewer question and survivor answer ";
      txt "has been assigned a unique identifier. The corpus follows TEI guidelines ";
      txt "(TEI Consortium 2023). " ]).
  eexists (cat
    [ txt " a substantial ";
      txt "interdisciplinary resource for research in the humanities and social sciences. ";
      txt "CORHOH is sourced from the United States Holocaust Memorial Museum (USHMM) ";
      txt "and is publicly available under a CC BY-NC-SA 4.0 license.";
      txt "</abstract>"; nl;
      TEXT IND; txt "</profileDesc>"; nl;
      TEXT IND; txt "<revisionDesc>"; nl;
      L2 IND; txt "<change when="; [dq]; txt "2025-02-01"; [dq]; txt ">Initial TEI encoding applied.</change>"; nl;
      L2 IND; txt "<change when="; [dq]; txt "2026-01-19"; [dq];
      txt ">Modified release: corrected a duplicate inclusion; this version contains one oral history per survivor across the 500 records. " ]).
  eexists (cat [ txt "</change>"; nl; TEXT IND; txt "</revisionDesc>"; nl;
                 CORHOH IND; txt "</teiHeader>"; nl ]).
  unfold cat. cbn [List.concat]. rewrite <- !app_assoc, !app_nil_r.
  reflexivity.
Qed.

(** *** The text of a record without turns *)

Lemma mismatch_sound (p t rest : str) :
  mismatch p t = true -> startswith p (t ++ rest) = false.
Proof.
  revert t. induction p as [|a p IH]; intros [|b t] H; try discriminate H.
  cbn [mismatch] in H. cbn [app startswith].
  destruct (a =? b); [|reflexivity]. cbn [negb orb andb] in *. apply IH, H.
Qed.

Lemma contains_lit (p lit t : str) :
  lit_ok p lit = true -> contains p (lit ++ t) = contains p t.
Proof.
  induction lit as [|c lit IH]; intros H; [reflexivity|].
  cbn [lit_ok] in H. apply andb_prop in H. destruct H as [Hm Hl].
  change ((c :: lit) ++ t) with (c :: lit ++ t). cbn [contains].
  change (c :: lit ++ t) with ((c :: lit) ++ t).
  rewrite (mismatch_sound _ _ _ Hm). cbn [orb]. apply IH, Hl.
Qed.

Lemma contains_lit3 (p l1 l2 l3 t : str) :
  lit_ok p (l1 ++ l2 ++ l3) = true ->
  contains p (l1 ++ l2 ++ l3 ++ t) = contains p t.
Proof.
  intros H. rewrite <- (contains_lit p (l1 ++ l2 ++ l3) t H), <- !app_assoc.
  reflexivity.
Qed.

Lemma field_no_open (row : Dict) (key : str) : mem 60 (field row key) = false.
Proof. apply escape_no_angle. Qed.

Lemma empty_record_has_no_turn (row : Dict) (kind : str) :
  kind = question \/ kind = answer ->
  contains (turn_div_open kind) (record_xml row [] [LF]) = false.
Proof.
  intros Hk.
  assert (E : turn_div_open kind = 60 :: tl (turn_div_open kind)) by reflexivity.
  rewrite E. clear E.
  unfold record_xml, cat. cbn [List.concat join].
  destruct Hk as [-> | ->];
    repeat first
      [ rewrite contains_lit by (vm_compute; reflexivity)
      | rewrite (contains_free_prefix 60) by apply field_no_open
      | rewrite contains_lit3 by (vm_compute; reflexivity) ];
    reflexivity.
Qed.

Lemma empty_record_shape (row : Dict) :
  exists meta,
    record_xml row [] [LF]
    = (TEXT IND ++ txt "<text id=" ++ [dq] ++ field row (txt "Documents ID")
       ++ [dq] ++ txt ">" ++ [LF])
      ++ meta ++ empty_body.
Proof.
  unfold record_xml, empty_body.
  eexists (cat
    [ L2 IND; txt "<meta>"; [LF];
      L3 IND; txt "<Oral_History_Details>"; [LF];
      L4 IND; txt "<Documents_ID>"; field row (txt "Documents ID"); txt "</Documents_ID>"; [LF];
      L4 IND; txt "<Rec_Date>"; field row (txt "Rec_Date"); txt "</Rec_Date>"; [LF];
      L4 IND; txt "<Rec_Length>"; field row (txt "Length"); txt "</Rec_Length>"; [LF];
      L4 IND; txt "<A_Number>"; field row (txt "A_#"); txt "</A_Number>"; [LF];
      L4 IND; txt "<Q_Number>"; field row (txt "Q_#"); txt "</Q_Number>"; [LF];
      L4 IND; txt "<permission_type>"; field row (txt "permission_type"); txt "</permission_type>"; [LF];
      L4 IND; txt "<Link>"; field row (txt "Link"); txt "</Link>"; [LF];
      L3 IND; txt "</Oral_History_Details>"; [LF];
      L3 IND; txt "<Individual_Meta_Data>"; [LF];
      L4 IND; txt "<Name>"; field row (txt "Name"); txt "</Name>"; [LF];
      L4 IND; txt "<DOB>"; field row (txt "DOB"); txt "</DOB>"; [LF];
      L4 IND; txt "<Gender>"; field row (txt "Gender"); txt "</Gender>"; [LF];
      L4 IND; txt "<Born>"; field row (txt "Born"); txt "</Born>"; [LF];
      L4 IND; txt "<Ghetto>"; field row (txt "Ghetto"); txt "</Ghetto>"; [LF];
      L4 IND; txt "<Camp>"; field row (txt "Camp"); txt "</Camp>"; [LF];
      L4 IND; txt "<Imm_Date>"; field row (txt "Imm_Date"); txt "</Imm_Date>"; [LF];
      L4 IND; txt "<Imm_Destination>"; field row (txt "Imm_Destination"); txt "</Imm_Destination>"; [LF];
      L3 IND; txt "</Individual_Meta_Data>"; [LF];
      L2 IND; txt "</meta>"; [LF] ]).
  unfold cat. cbn [List.concat join]. rewrite <- !app_assoc, !app_nil_r.
  reflexivity.
Qed.

(** *** The claims *)

(** Claim C1, as the code has it.  [escape] handles the ampersand and the
    two angle brackets: no escaped value holds an angle bracket.  It leaves
    the double quote as it is, also where the value is placed inside the
    [id] attribute: for the identifier a, double quote, b the fragment
    starts with an [id] attribute whose value ends at that quote, so the
    fragment is not well formed. *)
Theorem C1_attribute_quote_unescaped :
  (forall s, mem 60 (escape s) = false /\ mem 62 (escape s) = false) /\
  escape [dq] = [dq] /\
  firstn 23 (xml_of (build_record_xml Sample.quoted_row [] [LF])) =
    TEXT IND ++ txt "<text id=" ++ [dq] ++ txt "a" ++ [dq] ++ txt "b" ++ [dq] ++ txt ">".
Proof.
  split; [exact escape_no_angle|]. split; vm_compute; reflexivity.
Qed.

(** Claim C5.  The transcript of the specification's example parses to
    exactly two turns: the question Q1 with the utterance of two lines,
    then the answer A1. *)
Theorem C5_example_transcript :
  parse_transcript_to_turns
    (txt "Q1: Hello" ++ [LF] ++ txt "world" ++ [LF] ++ txt "A1: Hi there") =
  [ (question, txt "Q1", txt "Hello" ++ [LF] ++ txt "world");
    (answer, txt "A1", txt "Hi there") ].
Proof. vm_compute. reflexivity. Qed.

(** Claim C4.  For every record and transcript, the question count plus
    the answer count returned by [build_record_xml] is the number of turns
    parsed from the transcript. *)
Theorem C4_counts_sum_to_turns (row : Dict) (transcript_text nl : str) :
  q_of (build_record_xml row transcript_text nl)
  + a_of (build_record_xml row transcript_text nl)
  = N.of_nat (List.length (parse_transcript_to_turns transcript_text)).
Proof.
  unfold build_record_xml, q_of, a_of. cbn [fst snd].
  apply counts_add_up, parse_well_labelled.
Qed.

Lemma lowercase_no_marker (letter lower : char) (ws rest : str) :
  spaces ws -> isspace letter = false -> isspace lower = false ->
  lower <> letter -> marker_re letter (ws ++ lower :: rest) = None.
Proof.
  intros Hws Hl Hlo Hne.
  destruct (marker_re letter (ws ++ lower :: rest)) as [[g1 g2]|] eqn:H; [|reflexivity].
  apply marker_re_inv in H. destruct H as (w1 & ? & ? & ? & ? & E & Hw1 & _).
  apply first_nonspace_unique in E; auto. contradiction.
Qed.

Lemma filter_none {A : Type} (p : A -> bool) (l : list A) :
  (forall x, In x l -> p x = false) -> filter p l = [].
Proof.
  induction l as [|x l IH]; intros H; [reflexivity|].
  simpl. rewrite (H x) by (left; reflexivity). apply IH. intros; apply H; right; auto.
Qed.

(** Claim C2.  The number of turns is the number of lines the question
    pattern matches plus the number of lines the answer pattern matches;
    a transcript without marker lines, the empty one included, has no
    turns; a line whose first character after leading whitespace is a
    lowercase q or a is not a marker line. *)
Theorem C2_turn_count (text : str) :
  (List.length (parse_transcript_to_turns text) =
     List.length (filter is_question_line (splitlines text))
     + List.length (filter is_answer_line (splitlines text)))%nat
  /\ ((forall line, In line (splitlines text) ->
         is_question_line line = false /\ is_answer_line line = false) ->
      parse_transcript_to_turns text = [])
  /\ parse_transcript_to_turns [] = []
  /\ (forall ws rest, spaces ws ->
        _Q_RE (ws ++ 113 :: rest) = None /\ _A_RE (ws ++ 97 :: rest) = None).
Proof.
  split; [apply parse_count|]. split; [|split; [reflexivity|]].
  - intros H. apply length_zero_iff_nil. rewrite parse_count.
    rewrite !filter_none; [reflexivity| |]; intros l Hl; apply H, Hl.
  - intros ws rest Hws. split; apply lowercase_no_marker; auto; discriminate.
Qed.

(** Claim C10.  Every turn returned by the parser is a question or an
    answer; a question is labelled Q followed by one or more digits, an
    answer A followed by one or more digits; the label is never empty and
    its first character tells the kind. *)
Theorem C10_turn_labels (text : str) (kind label utt : str) :
  In (kind, label, utt) (parse_transcript_to_turns text) ->
  (kind = question \/ kind = answer)
  /\ (kind = question -> question_label label)
  /\ (kind = answer -> answer_label label)
  /\ label <> []
  /\ (kind = question <-> hd 0 label = 81)
  /\ (kind = answer <-> hd 0 label = 65).
Proof.
  intros Hin. pose proof (parse_well_labelled text) as H.
  rewrite Forall_forall in H. apply H in Hin. clear H.
  destruct Hin as [[Hk Hl]|[Hk Hl]]; cbn [fst snd] in Hk, Hl;
    destruct Hl as (ds & Hne & Hd & ->); subst kind; cbn [hd].
  - repeat split; try discriminate; auto; try (exists ds; auto).
  - repeat split; try discriminate; auto; try (exists ds; auto).
Qed.

(** Claim C7.  The repair pass gives the same text whatever the order in
    which the rules of the table are applied. *)
Theorem C7_repair_order_independent (rules : list (str * str)) (content : str) :
  Permutation replacements rules ->
  apply_replacements rules content = apply_replacements replacements content.
Proof. apply repair_any_order. Qed.

Section RunClaims.
Variable path_exists : Path -> exn + bool.
Variable read_bytes : Path -> exn + bytes.
Variable joinpath : Path -> str -> Path.
Variable decode_utf_8_sig : bytes -> option str.
Variable decode_cp1252_replace : bytes -> str.
Variable pd_read_csv : Path -> exn + DataFrame (option str).
Variable write_text : Path -> str -> exn + unit.

Local Abbreviation row_step := (process_row path_exists read_bytes joinpath
                                        decode_utf_8_sig decode_cp1252_replace).
Local Abbreviation rows_loop := (process_rows path_exists read_bytes joinpath
                                          decode_utf_8_sig decode_cp1252_replace).
Local Abbreviation rendering := (renders path_exists read_bytes joinpath
                                     decode_utf_8_sig decode_cp1252_replace).
Local Abbreviation generate :=
  (generate_corhoh_xml path_exists read_bytes joinpath decode_utf_8_sig
                       decode_cp1252_replace pd_read_csv write_text).

(** Claim C3.  In a completed run, the header block of the document
    carries the sum of the question counts and the sum of the answer
    counts that [build_record_xml] returned for the rows of the table:
    the document names the two sums in decimal, the questions first,
    in the abstract and again in the last revision note. *)
Theorem C3_header_totals (metadata_csv texts_dir output_xml : Path)
        (tei : str) (lg : list log_record) :
  generate metadata_csv texts_dir output_xml = inr (tei, lg) ->
  exists df rendered,
    read_metadata pd_read_csv metadata_csv = inr df /\
    Forall2 (rendering texts_dir) (to_dict_records df) rendered /\
    tei = tei_prologue
          ++ fixed_header_block (sum_N (map q_of rendered))
                                (sum_N (map a_of rendered)) [LF]
          ++ tei_epilogue (map xml_of rendered) /\
    exists pre mid post,
      tei = pre
            ++ (txt "In this version, the dataset contains "
                ++ str_of_int (sum_N (map q_of rendered))
                ++ txt " questions and "
                ++ str_of_int (sum_N (map a_of rendered))
                ++ txt " answers, providing")
            ++ mid
            ++ (txt "Counts updated to "
                ++ str_of_int (sum_N (map q_of rendered))
                ++ txt " questions and "
                ++ str_of_int (sum_N (map a_of rendered))
                ++ txt " answers.")
            ++ post.
Proof.
  unfold generate_corhoh_xml. intros H.
  destruct (read_metadata pd_read_csv metadata_csv) as [e|df]; [discriminate|].
  destruct (process_rows _ _ _ _ _ texts_dir _ 1 _ _) as [e|st] eqn:Hp;
    [discriminate|].
  destruct (write_text output_xml (tei_document st)) as [e|u]; [discriminate|].
  apply process_rows_inv in Hp. destruct Hp as (rendered & Hf & Er & Eq & Ea).
  cbn [records total_q total_a app] in Er, Eq, Ea. rewrite N.add_0_l in Eq, Ea.
  inversion H as [[Ht Hl]]. exists df, rendered.
  split; [reflexivity|]. split; [exact Hf|].
  rewrite tei_document_layout, Er, Eq, Ea. split; [reflexivity|].
  destruct (header_names_totals (sum_N (map q_of rendered))
              (sum_N (map a_of rendered)) [LF]) as (pre & mid & post & E).
  exists (tei_prologue ++ pre), mid, (post ++ tei_epilogue (map xml_of rendered)).
  rewrite E, <- !app_assoc. reflexivity.
Qed.

(** Claim C6.  A row whose transcript file does not exist does not stop
    the run: the loop goes on with the next row; the record is rendered
    from the empty transcript, which has no turns; its fragment is a
    [text] element with the row's identifier, the metadata block and a
    body whose interview element holds its heading only, and the opening
    tag of a block for a question or an answer occurs nowhere in it; both
    totals stay as they were; one warning about the missing transcript is
    logged for it, followed at most by the progress notice. *)
Theorem C6_missing_transcript (texts_dir : Path) (n i : N) (row : Dict)
        (rest : list Dict) (st : run_state) :
  path_exists (transcript_path joinpath texts_dir row) = inr false ->
  exists st' progress,
    row_step texts_dir n i row st = inr st' /\
    rows_loop texts_dir n i (row :: rest) st = rows_loop texts_dir n (i + 1) rest st' /\
    parse_transcript_to_turns [] = [] /\
    build_record_xml row [] [LF] = (record_xml row [] [LF], 0, 0) /\
    (exists meta,
        record_xml row [] [LF]
        = (TEXT IND ++ txt "<text id=" ++ [dq] ++ field row (txt "Documents ID")
           ++ [dq] ++ txt ">" ++ [LF])
          ++ meta ++ empty_body) /\
    contains (turn_div_open question) (record_xml row [] [LF]) = false /\
    contains (turn_div_open answer) (record_xml row [] [LF]) = false /\
    records st' = records st ++ [record_xml row [] [LF]] /\
    total_q st' = total_q st /\
    total_a st' = total_a st /\
    missing_transcripts st' = missing_transcripts st + 1 /\
    log st' = log st
              ++ (WARNING,
                  cat [ txt "Missing transcript for Documents ID '";
                        strip (dict_get row (txt "Documents ID") []);
                        txt "' ("; transcript_path joinpath texts_dir row; txt ")" ])
              :: progress /\
    Forall (fun r => fst r = INFO) progress.
Proof.
  intros Hmissing.
  assert (Hb : build_record_xml row [] [LF] = (record_xml row [] [LF], 0, 0))
    by reflexivity.
  assert (Hstep : exists st' progress,
             row_step texts_dir n i row st = inr st' /\
             records st' = records st ++ [record_xml row [] [LF]] /\
             total_q st' = total_q st /\ total_a st' = total_a st /\
             missing_transcripts st' = missing_transcripts st + 1 /\
             log st' = log st
               ++ (WARNING,
                   cat [ txt "Missing transcript for Documents ID '";
                         strip (dict_get row (txt "Documents ID") []);
                         txt "' ("; transcript_path joinpath texts_dir row; txt ")" ])
               :: progress /\
             Forall (fun r => fst r = INFO) progress).
  { unfold process_row. unfold transcript_path in Hmissing. rewrite Hmissing.
    cbn [negb]. rewrite Hb. unfold transcript_path.
    destruct (i mod 50 =? 0).
    - eexists. eexists. split; [reflexivity|]. cbn [records total_q total_a missing_transcripts log].
      rewrite !N.add_0_r, <- app_assoc. repeat split. repeat constructor.
    - eexists. exists []. split; [reflexivity|]. cbn [records total_q total_a missing_transcripts log].
      rewrite !N.add_0_r. repeat split. constructor. }
  destruct Hstep as (st' & progress & Hs & Hr & Hq & Ha & Hm & Hl & Hp).
  exists st', progress. cbn [process_rows]. rewrite Hs.
  split; [reflexivity|]. split; [reflexivity|]. split; [reflexivity|].
  split; [exact Hb|]. split; [apply empty_record_shape|].
  split; [apply empty_record_has_no_turn; left; reflexivity|].
  split; [apply empty_record_has_no_turn; right; reflexivity|].
  repeat split; auto.
Qed.

(** Claim C8.  Once the table is parsed, [read_metadata] raises the
    [KeyError] exactly when the column [Documents ID] is absent;
    otherwise it returns the table, whose cells are all strings, with
    each missing cell replaced by the empty string. *)
Theorem C8_read_metadata (metadata_csv : Path) (raw : DataFrame (option str)) :
  pd_read_csv metadata_csv = inr raw ->
  ((exists msg, read_metadata pd_read_csv metadata_csv = inl (KeyError msg))
     <-> ~ In (txt "Documents ID") (columns raw))
  /\ (In (txt "Documents ID") (columns raw) ->
      read_metadata pd_read_csv metadata_csv = inr (fillna [] raw))
  /\ columns (fillna [] raw) = columns raw
  /\ values (fillna [] raw) =
     map (map (fun cell => match cell with Some x => x | None => [] end)) (values raw).
Proof.
  intros Hraw. unfold read_metadata. rewrite Hraw. cbn [fillna columns values].
  destruct (existsb (str_eqb (txt "Documents ID")) (columns raw)) eqn:Hc.
  - apply existsb_exists in Hc. destruct Hc as (c & Hin & Hc).
    destruct (str_eqb_spec (txt "Documents ID") c); [subst c|discriminate].
    repeat split; auto.
    + intros [msg Hm]. discriminate.
    + intros Hn. contradiction.
  - assert (Hn : ~ In (txt "Documents ID") (columns raw)).
    { intros Hin. rewrite <- not_true_iff_false in Hc. apply Hc.
      apply existsb_exists. exists (txt "Documents ID"). split; auto. }
    repeat split; auto.
    + eexists. reflexivity.
    + intros Hin. contradiction.
Qed.
End RunClaims.

Section TwoRuns.
Variable joinpath : Path -> str -> Path.
Variable decode_utf_8_sig : bytes -> option str.
Variable decode_cp1252_replace : bytes -> str.
Variables path_exists1 path_exists2 : Path -> exn + bool.
Variables read_bytes1 read_bytes2 : Path -> exn + bytes.
Variables pd_read_csv1 pd_read_csv2 : Path -> exn + DataFrame (option str).
Variables write_text1 write_text2 : Path -> str -> exn + unit.

Lemma process_rows_same (texts_dir : Path) (n : N) (rows : list Dict) :
  (forall row, In row rows -> same_transcript joinpath path_exists1 path_exists2 read_bytes1 read_bytes2 texts_dir row) ->
  forall i st,
    process_rows path_exists1 read_bytes1 joinpath decode_utf_8_sig
                 decode_cp1252_replace texts_dir n i rows st
    = process_rows path_exists2 read_bytes2 joinpath decode_utf_8_sig
                   decode_cp1252_replace texts_dir n i rows st.
Proof.
  induction rows as [|row rows IH]; intros Hs i st; [reflexivity|].
  cbn [process_rows].
  assert (E : process_row path_exists1 read_bytes1 joinpath decode_utf_8_sig
                          decode_cp1252_replace texts_dir n i row st
              = process_row path_exists2 read_bytes2 joinpath decode_utf_8_sig
                            decode_cp1252_replace texts_dir n i row st).
  { destruct (Hs row (or_introl eq_refl)) as [He Hr].
    unfold process_row, transcript_path in *. rewrite <- He.
    destruct (path_exists1 _) as [e|[|]] eqn:Hex; cbn [negb];
      [reflexivity| |reflexivity].
    unfold smart_read. rewrite (Hr eq_refl). reflexivity. }
  rewrite E. destruct (process_row path_exists2 _ _ _ _ _ _ _ _ _); [reflexivity|].
  apply IH. intros row' Hin. apply Hs. right. exact Hin.
Qed.

(** Claim C9.  Two runs that read the same metadata table and find the
    same transcript for each of its rows hand the same document text to
    the output file: if both complete, they return the same text and the
    same log, whatever the two writes did otherwise; and if the output
    path takes every text in the second run as it does in the first, the
    two runs return the same result, the same document text and log or
    the same exception. *)
Theorem C9_deterministic (metadata_csv texts_dir output_xml : Path) :
  pd_read_csv1 metadata_csv = pd_read_csv2 metadata_csv ->
  (forall df row,
      read_metadata pd_read_csv1 metadata_csv = inr df ->
      In row (to_dict_records df) -> same_transcript joinpath path_exists1 path_exists2 read_bytes1 read_bytes2 texts_dir row) ->
  (forall out1 out2,
      generate_corhoh_xml path_exists1 read_bytes1 joinpath decode_utf_8_sig
                          decode_cp1252_replace pd_read_csv1 write_text1
                          metadata_csv texts_dir output_xml = inr out1 ->
      generate_corhoh_xml path_exists2 read_bytes2 joinpath decode_utf_8_sig
                          decode_cp1252_replace pd_read_csv2 write_text2
                          metadata_csv texts_dir output_xml = inr out2 ->
      out1 = out2) /\
  ((forall tei, write_text1 output_xml tei = write_text2 output_xml tei) ->
   generate_corhoh_xml path_exists1 read_bytes1 joinpath decode_utf_8_sig
                       decode_cp1252_replace pd_read_csv1 write_text1
                       metadata_csv texts_dir output_xml
   = generate_corhoh_xml path_exists2 read_bytes2 joinpath decode_utf_8_sig
                         decode_cp1252_replace pd_read_csv2 write_text2
                         metadata_csv texts_dir output_xml).
Proof.
  intros Hmeta Hfiles. unfold generate_corhoh_xml.
  assert (Hm : read_metadata pd_read_csv2 metadata_csv
               = read_metadata pd_read_csv1 metadata_csv)
    by (unfold read_metadata; rewrite Hmeta; reflexivity).
  rewrite Hm.
  destruct (read_metadata pd_read_csv1 metadata_csv) as [e|df] eqn:Hdf.
  { split; [intros out1 out2 H; discriminate|reflexivity]. }
  rewrite (process_rows_same texts_dir _ (to_dict_records df))
    by (intros row Hrow; apply (Hfiles df row eq_refl Hrow)).
  destruct (process_rows path_exists2 _ _ _ _ _ _ _ _ _) as [e|st].
  { split; [intros out1 out2 H; discriminate|reflexivity]. }
  split.
  - intros out1 out2 H1 H2.
    destruct (write_text1 output_xml (tei_document st)); [discriminate|].
    destruct (write_text2 output_xml (tei_document st)); [discriminate|].
    congruence.
  - intros Hw. rewrite Hw. reflexivity.
Qed.
End TwoRuns.

(** *** Instances *)

(** C2 at a transcript of one line of preamble. *)
Lemma C2_turn_count_witness :
  (forall line, In line (splitlines (txt "Recorded in 1995")) ->
     is_question_line line = false /\ is_answer_line line = false)
  /\ parse_transcript_to_turns (txt "Recorded in 1995") = [].
Proof.
  assert (H : forall line, In line (splitlines (txt "Recorded in 1995")) ->
                is_question_line line = false /\ is_answer_line line = false).
  { intros line [<-|[]]. split; vm_compute; reflexivity. }
  split; [exact H|].
  exact (proj1 (proj2 (C2_turn_count (txt "Recorded in 1995"))) H).
Defined.

(** C3 at the sample environment. *)
Lemma C3_header_totals_witness :
  exists tei lg,
    generate_corhoh_xml Sample.path_exists Sample.read_bytes Sample.joinpath
      Sample.decode_utf_8_sig Sample.decode_cp1252_replace Sample.pd_read_csv
      Sample.write_text
      Sample.metadata_csv Sample.texts_dir Sample.output_xml = inr (tei, lg)
    /\ exists df rendered,
      read_metadata Sample.pd_read_csv Sample.metadata_csv = inr df /\
      Forall2 (renders Sample.path_exists Sample.read_bytes Sample.joinpath
                 Sample.decode_utf_8_sig Sample.decode_cp1252_replace Sample.texts_dir)
              (to_dict_records df) rendered /\
      tei = tei_prologue
            ++ fixed_header_block (sum_N (map q_of rendered))
                                  (sum_N (map a_of rendered)) [LF]
            ++ tei_epilogue (map xml_of rendered) /\
      exists pre mid post,
        tei = pre
              ++ (txt "In this version, the dataset contains "
                  ++ str_of_int (sum_N (map q_of rendered))
                  ++ txt " questions and "
                  ++ str_of_int (sum_N (map a_of rendered))
                  ++ txt " answers, providing")
              ++ mid
              ++ (txt "Counts updated to "
                  ++ str_of_int (sum_N (map q_of rendered))
                  ++ txt " questions and "
                  ++ str_of_int (sum_N (map a_of rendered))
                  ++ txt " answers.")
              ++ post.
Proof.
  destruct (generate_corhoh_xml Sample.path_exists Sample.read_bytes Sample.joinpath
      Sample.decode_utf_8_sig Sample.decode_cp1252_replace Sample.pd_read_csv
      Sample.write_text
      Sample.metadata_csv Sample.texts_dir Sample.output_xml) as [e|[tei lg]] eqn:H.
  - vm_compute in H. discriminate H.
  - exists tei, lg. split; [reflexivity|].
    exact (C3_header_totals _ _ _ _ _ _ _ _ _ _ _ _ H).
Defined.

(** C6 at the second row of the sample table, which has no transcript. *)
Lemma C6_missing_transcript_witness :
  Sample.path_exists
    (transcript_path Sample.joinpath Sample.texts_dir [(txt "Documents ID", txt "2")])
  = inr false
  /\ exists st',
      process_row Sample.path_exists Sample.read_bytes Sample.joinpath
        Sample.decode_utf_8_sig Sample.decode_cp1252_replace
        Sample.texts_dir 2 2 [(txt "Documents ID", txt "2")] (mkRun [] 1 1 0 [])
      = inr st'
      /\ total_q st' = 1 /\ total_a st' = 1 /\ missing_transcripts st' = 1.
Proof.
  assert (H : Sample.path_exists
                (transcript_path Sample.joinpath Sample.texts_dir
                                 [(txt "Documents ID", txt "2")]) = inr false)
    by (vm_compute; reflexivity).
  split; [exact H|].
  destruct (C6_missing_transcript Sample.path_exists Sample.read_bytes Sample.joinpath
              Sample.decode_utf_8_sig Sample.decode_cp1252_replace
              Sample.texts_dir 2 2 [(txt "Documents ID", txt "2")] []
              (mkRun [] 1 1 0 []) H)
    as (st' & progress & Hs & _ & _ & _ & _ & _ & _ & _ & Hq & Ha & Hm & _).
  exists st'.
  split; [exact Hs|]. split; [exact Hq|]. split; [exact Ha|exact Hm].
Defined.

(** C7 at the table read backwards. *)
Lemma C7_repair_order_independent_witness :
  Permutation replacements (rev replacements)
  /\ apply_replacements (rev replacements) ([8730; 239] ++ txt "t " ++ [213])
     = apply_replacements replacements ([8730; 239] ++ txt "t " ++ [213]).
Proof.
  split; [apply Permutation_rev|].
  exact (C7_repair_order_independent (rev replacements) _ (Permutation_rev _)).
Defined.

(** C8 at the sample table. *)
Lemma C8_read_metadata_witness :
  Sample.pd_read_csv Sample.metadata_csv = inr Sample.table
  /\ read_metadata Sample.pd_read_csv Sample.metadata_csv
     = inr (fillna [] Sample.table).
Proof.
  assert (H : Sample.pd_read_csv Sample.metadata_csv = inr Sample.table)
    by reflexivity.
  split; [exact H|].
  apply (proj1 (proj2 (C8_read_metadata Sample.pd_read_csv _ _ H))).
  simpl. left. reflexivity.
Defined.

(** C9 at the sample environment and one with an additional file. *)
Lemma C9_deterministic_witness :
  Sample.pd_read_csv Sample.metadata_csv = Sample.pd_read_csv Sample.metadata_csv
  /\ (forall df row,
        read_metadata Sample.pd_read_csv Sample.metadata_csv = inr df ->
        In row (to_dict_records df) ->
        same_transcript Sample.joinpath Sample.path_exists Sample.path_exists'
                        Sample.read_bytes Sample.read_bytes Sample.texts_dir row)
  /\ (forall tei, Sample.write_text Sample.output_xml tei
                   = Sample.write_text Sample.output_xml tei)
  /\ generate_corhoh_xml Sample.path_exists Sample.read_bytes Sample.joinpath
       Sample.decode_utf_8_sig Sample.decode_cp1252_replace Sample.pd_read_csv
       Sample.write_text
       Sample.metadata_csv Sample.texts_dir Sample.output_xml
     = generate_corhoh_xml Sample.path_exists' Sample.read_bytes Sample.joinpath
         Sample.decode_utf_8_sig Sample.decode_cp1252_replace Sample.pd_read_csv
         Sample.write_text
         Sample.metadata_csv Sample.texts_dir Sample.output_xml.
Proof.
  assert (H : forall df row,
        read_metadata Sample.pd_read_csv Sample.metadata_csv = inr df ->
        In row (to_dict_records df) ->
        same_transcript Sample.joinpath Sample.path_exists Sample.path_exists'
                        Sample.read_bytes Sample.read_bytes Sample.texts_dir row).
  { intros df row Hdf Hin. vm_compute in Hdf. inversion Hdf; subst df; clear Hdf.
    vm_compute in Hin. destruct Hin as [<-|[<-|[]]]; split;
      try (vm_compute; reflexivity); intros _; reflexivity. }
  split; [reflexivity|]. split; [exact H|].
  split; [intros tei; reflexivity|].
  exact (proj2 (C9_deterministic Sample.joinpath Sample.decode_utf_8_sig
           Sample.decode_cp1252_replace Sample.path_exists Sample.path_exists'
           Sample.read_bytes Sample.read_bytes Sample.pd_read_csv Sample.pd_read_csv
           Sample.write_text Sample.write_text
           Sample.metadata_csv Sample.texts_dir Sample.output_xml eq_refl H)
         (fun tei => eq_refl)).
Defined.

(** C10 at the second turn of the sample transcript. *)
Lemma C10_turn_labels_witness :
  In (answer, txt "A1", txt "Hi there") (parse_transcript_to_turns Sample.transcript)
  /\ answer_label (txt "A1").
Proof.
  assert (H : In (answer, txt "A1", txt "Hi there")
                 (parse_transcript_to_turns Sample.transcript))
    by (vm_compute; auto).
  split; [exact H|].
  exact (proj1 (proj2 (proj2 (C10_turn_labels _ _ _ _ H))) eq_refl).
Defined.

(* ===================================================================== *)
(** ** Further properties *)
(* ===================================================================== *)

(** *** The parser, line by line *)

Lemma parse_lines_splitlines (text : str) :
  parse_transcript_to_turns text = parse_lines (splitlines text).
Proof. reflexivity. Qed.

Lemma splitlines_from_line (line : str) :
  clean line ->
  forall cur rest,
    splitlines_from cur (line ++ LF :: rest) = (rev cur ++ line) :: splitlines rest.
Proof.
  induction 1 as [|c line Hc _ IH]; intros cur rest.
  - simpl. rewrite app_nil_r. reflexivity.
  - cbn [app splitlines_from].
    assert (Hcr : (c =? CR) = false).
    { destruct (N.eqb_spec c CR) as [->|]; [discriminate Hc|reflexivity]. }
    rewrite Hcr, Hc, IH. simpl. rewrite <- app_assoc. reflexivity.
Qed.

Lemma splitlines_line (line rest : str) :
  clean line -> splitlines (line ++ LF :: rest) = line :: splitlines rest.
Proof. intros H. unfold splitlines at 1. rewrite splitlines_from_line by exact H. reflexivity. Qed.

Lemma flush_prepend (done : list Turn) (st : parser_state) :
  flush (prepend done st) = prepend done (flush st).
Proof.
  destruct st as [ts [ty|] lab buf]; unfold flush, prepend;
    cbn [cur_type cur_label cur_buf turns]; [|reflexivity].
  rewrite app_assoc. reflexivity.
Qed.

Lemma parse_line_prepend (done : list Turn) (st : parser_state) (l : str) :
  parse_line (prepend done st) l = prepend done (parse_line st l).
Proof.
  unfold parse_line.
  destruct (_Q_RE _) as [[q1 q2]|].
  - rewrite flush_prepend. reflexivity.
  - destruct (_A_RE _) as [[a1 a2]|].
    + rewrite flush_prepend. reflexivity.
    + destruct st as [ts [ty|] lab buf]; reflexivity.
Qed.

Lemma fold_parse_prepend (done : list Turn) (lines : list str) (st : parser_state) :
  fold_left parse_line lines (prepend done st)
  = prepend done (fold_left parse_line lines st).
Proof.
  revert st. induction lines as [|l lines IH]; intros st; [reflexivity|].
  simpl. rewrite parse_line_prepend. apply IH.
Qed.

Lemma marker_line_step (st : parser_state) (l : str) (kind label g2 : str) :
  clean l -> marker_line l = Some (kind, label, g2) ->
  parse_line st l = mkParser (turns (flush st)) (Some kind) (Some label) [g2].
Proof.
  intros Hc. unfold marker_line, parse_line. rewrite (rstrip_newline_clean _ Hc).
  destruct (_Q_RE l) as [[q1 q2]|].
  - intros H. inversion H; subst. reflexivity.
  - destruct (_A_RE l) as [[a1 a2]|]; [|discriminate].
    intros H. inversion H; subst. reflexivity.
Qed.

Lemma plain_line_step (st : parser_state) (l : str) :
  clean l -> marker_line l = None ->
  parse_line st l =
  match cur_type st with
  | Some _ => mkParser (turns st) (cur_type st) (cur_label st) (cur_buf st ++ [l])
  | None => st
  end.
Proof.
  intros Hc. unfold marker_line, parse_line. rewrite (rstrip_newline_clean _ Hc).
  destruct (_Q_RE l) as [[q1 q2]|]; [discriminate|].
  destruct (_A_RE l) as [[a1 a2]|]; [discriminate|]. reflexivity.
Qed.

Lemma marker_label_nonempty (l kind label g2 : str) :
  marker_line l = Some (kind, label, g2) -> or_empty (Some label) = label.
Proof.
  unfold marker_line.
  destruct (_Q_RE l) as [[q1 q2]|].
  - intros H. inversion H; subst. reflexivity.
  - destruct (_A_RE l) as [[a1 a2]|]; [|discriminate].
    intros H. inversion H; subst. reflexivity.
Qed.

Lemma fold_plain_open (conts : list str) :
  Forall clean conts ->
  (forall l, In l conts -> marker_line l = None) ->
  forall done ty label buf,
    fold_left parse_line conts (mkParser done (Some ty) label buf)
    = mkParser done (Some ty) label (buf ++ conts).
Proof.
  induction 1 as [|l conts Hl _ IH]; intros Hn done ty label buf.
  - simpl. rewrite app_nil_r. reflexivity.
  - simpl. rewrite (plain_line_step _ l Hl) by (apply Hn; left; reflexivity).
    cbn [cur_type cur_label cur_buf turns]. rewrite IH.
    + rewrite <- app_assoc. reflexivity.
    + intros l' Hl'. apply Hn. right. exact Hl'.
Qed.

Lemma fold_plain_closed (pre : list str) :
  Forall clean pre ->
  (forall l, In l pre -> marker_line l = None) ->
  forall done label buf,
    fold_left parse_line pre (mkParser done None label buf)
    = mkParser done None label buf.
Proof.
  induction 1 as [|l pre Hl _ IH]; intros Hn done label buf; [reflexivity|].
  simpl. rewrite (plain_line_step _ l Hl) by (apply Hn; left; reflexivity).
  cbn [cur_type]. apply IH. intros l' Hl'. apply Hn. right. exact Hl'.
Qed.

(** Closing an open turn before the lines that start the next one. *)
Lemma close_open_turn (rest : list str) (ty : str) (label : option str) (buf : list str) :
  Forall clean rest -> starts_turn rest ->
  turns (flush (fold_left parse_line rest (mkParser [] (Some ty) label buf)))
  = (ty, or_empty label, strip (join [LF] buf)) :: parse_lines rest.
Proof.
  intros Hc Hs. destruct rest as [|r rest].
  - reflexivity.
  - simpl in Hs. destruct (marker_line r) as [[[kind lab] g2]|] eqn:Hm; [|contradiction].
    inversion Hc as [|? ? Hr Hrest]; subst.
    unfold parse_lines. cbn [fold_left].
    rewrite !(marker_line_step _ r kind lab g2 Hr Hm).
    unfold flush at 2 4. cbn [cur_type cur_label cur_buf turns app].
    change (mkParser [(ty, or_empty label, strip (join [LF] buf))] (Some kind) (Some lab) [g2])
      with (prepend [(ty, or_empty label, strip (join [LF] buf))]
                    (mkParser [] (Some kind) (Some lab) [g2])).
    rewrite fold_parse_prepend, flush_prepend. reflexivity.
Qed.

Lemma flush_heads (st : parser_state) : map head_of (turns (flush st)) = heads st.
Proof.
  destruct st as [ts [ty|] lab buf]; unfold flush, heads; cbn [cur_type cur_label cur_buf turns].
  - rewrite map_app. reflexivity.
  - rewrite app_nil_r. reflexivity.
Qed.

Lemma parse_line_heads (st : parser_state) (l : str) :
  clean l -> heads (parse_line st l) = heads st ++ heads_of_line l.
Proof.
  intros Hc. unfold heads_of_line.
  destruct (marker_line l) as [[[kind lab] g2]|] eqn:Hm.
  - rewrite (marker_line_step st l kind lab g2 Hc Hm).
    unfold heads at 1. cbn [cur_type cur_label cur_buf turns].
    rewrite flush_heads, (marker_label_nonempty _ _ _ _ Hm). reflexivity.
  - rewrite (plain_line_step st l Hc Hm), app_nil_r.
    destruct st as [ts [ty|] lab buf]; reflexivity.
Qed.

Lemma fold_parse_heads (lines : list str) :
  Forall clean lines ->
  forall st, heads (fold_left parse_line lines st) = heads st ++ flat_map heads_of_line lines.
Proof.
  induction 1 as [|l lines Hl _ IH]; intros st; simpl.
  - rewrite app_nil_r. reflexivity.
  - rewrite IH, parse_line_heads by exact Hl. rewrite <- app_assoc. reflexivity.
Qed.

Lemma parse_heads (text : str) :
  map head_of (parse_transcript_to_turns text) = flat_map heads_of_line (splitlines text).
Proof.
  unfold parse_transcript_to_turns.
  rewrite flush_heads, fold_parse_heads by apply splitlines_clean. reflexivity.
Qed.

(** Extra X1.  The kinds and labels of the turns, in order, are those of
    the marker lines of the transcript, in line order: nothing is
    reordered, paired or dropped. *)
Theorem turns_follow_marker_lines (text : str) :
  map head_of (parse_transcript_to_turns text) = flat_map heads_of_line (splitlines text).
Proof. apply parse_heads. Qed.

Lemma count_kind_heads (kind : str) (ts : list Turn) :
  count_kind kind ts =
  N.of_nat (List.length (filter (fun h => str_eqb (fst h) kind) (map head_of ts))).
Proof.
  induction ts as [|t ts IH]; [reflexivity|].
  rewrite count_kind_cons, IH. cbn [map filter].
  change (fst (head_of t)) with (fst (fst t)).
  destruct (str_eqb (fst (fst t)) kind); cbn [List.length];
    rewrite ?Nat2N.inj_succ; lia.
Qed.

Lemma line_heads_count (line : str) :
  List.length (filter (fun h => str_eqb (fst h) question) (heads_of_line line))
  = (if is_question_line line then 1 else 0)%nat
  /\ List.length (filter (fun h => str_eqb (fst h) answer) (heads_of_line line))
     = (if is_answer_line line then 1 else 0)%nat.
Proof.
  pose proof (markers_disjoint line) as Hd.
  unfold heads_of_line, marker_line, is_question_line, is_answer_line in *.
  destruct (_Q_RE line) as [[q1 q2]|].
  - rewrite Hd by reflexivity. split; reflexivity.
  - destruct (_A_RE line) as [[a1 a2]|]; split; reflexivity.
Qed.

Lemma lines_heads_count (lines : list str) :
  List.length (filter (fun h => str_eqb (fst h) question) (flat_map heads_of_line lines))
  = List.length (filter is_question_line lines)
  /\ List.length (filter (fun h => str_eqb (fst h) answer) (flat_map heads_of_line lines))
     = List.length (filter is_answer_line lines).
Proof.
  induction lines as [|l lines [IHq IHa]]; [split; reflexivity|].
  destruct (line_heads_count l) as [Hq Ha].
  cbn [flat_map filter]. rewrite !filter_app, !length_app, IHq, IHa, Hq, Ha.
  destruct (is_question_line l), (is_answer_line l); split; reflexivity.
Qed.

(** Extra X2.  The question count that [build_record_xml] returns is the
    number of lines the question pattern matches, the answer count the
    number of lines the answer pattern matches. *)
Theorem counts_are_marker_lines (row : Dict) (transcript_text nl : str) :
  q_of (build_record_xml row transcript_text nl)
  = N.of_nat (List.length (filter is_question_line (splitlines transcript_text)))
  /\ a_of (build_record_xml row transcript_text nl)
     = N.of_nat (List.length (filter is_answer_line (splitlines transcript_text))).
Proof.
  unfold build_record_xml, q_of, a_of. cbn [fst snd].
  rewrite !count_kind_heads, parse_heads.
  destruct (lines_heads_count (splitlines transcript_text)) as [-> ->].
  split; reflexivity.
Qed.

(** Extra X3.  Lines before the first marker line are discarded: the turns
    of a transcript are those of its lines from the first marker on. *)
Theorem preamble_is_discarded (text : str) (pre rest : list str) :
  splitlines text = pre ++ rest ->
  (forall l, In l pre -> marker_line l = None) ->
  parse_transcript_to_turns text = parse_lines rest.
Proof.
  intros E Hn. pose proof (splitlines_clean text) as Hc. rewrite E in Hc.
  apply Forall_app in Hc. destruct Hc as [Hpre _].
  unfold parse_transcript_to_turns, parse_lines. rewrite E, fold_left_app.
  rewrite (fold_plain_closed pre Hpre Hn). reflexivity.
Qed.

(** Extra X4.  A turn spans from its marker line to the line before the
    next marker line, wherever the marker line stands in the transcript:
    the turns before it are those of the lines before it; its utterance
    is the rest of the marker line and the lines that follow, joined by
    newlines and trimmed; the turns after it are those of the remaining
    lines. *)
Theorem turn_spans_to_next_marker (text m : str) (before conts rest : list str)
        (kind label g2 : str) :
  splitlines text = before ++ m :: conts ++ rest ->
  marker_line m = Some (kind, label, g2) ->
  (forall l, In l conts -> marker_line l = None) ->
  starts_turn rest ->
  parse_transcript_to_turns text
  = parse_lines before
    ++ (kind, label, strip (join [LF] (g2 :: conts))) :: parse_lines rest.
Proof.
  intros E Hm Hn Hs. pose proof (splitlines_clean text) as Hc. rewrite E in Hc.
  apply Forall_app in Hc. destruct Hc as [_ Hc].
  inversion Hc as [|? ? Hcm Hc']; subst.
  apply Forall_app in Hc'. destruct Hc' as [Hconts Hrest].
  unfold parse_transcript_to_turns. rewrite E, fold_left_app. cbn [fold_left].
  rewrite (marker_line_step _ m kind label g2 Hcm Hm).
  fold (parse_lines before).
  replace (mkParser (parse_lines before) (Some kind) (Some label) [g2])
    with (prepend (parse_lines before) (mkParser [] (Some kind) (Some label) [g2]))
    by (unfold prepend; cbn [turns cur_type cur_label cur_buf];
        rewrite app_nil_r; reflexivity).
  rewrite fold_parse_prepend, flush_prepend. unfold prepend at 1. cbn [turns].
  rewrite fold_left_app, (fold_plain_open conts Hconts Hn).
  rewrite (close_open_turn rest kind (Some label) _ Hrest Hs).
  rewrite (marker_label_nonempty _ _ _ _ Hm). reflexivity.
Qed.

Lemma dropwhile_hd (p : char -> bool) (s : str) (c : char) (rest : str) :
  dropwhile p s = c :: rest -> p c = false.
Proof.
  induction s as [|x s IH]; simpl; [discriminate|].
  destruct (p x) eqn:Hx; [exact IH|]. intros H. inversion H; subst. exact Hx.
Qed.

Lemma dropwhile_snoc (p : char -> bool) (l : str) (x : char) :
  p x = false -> dropwhile p (l ++ [x]) = dropwhile p l ++ [x].
Proof.
  intros Hx. induction l as [|y l IH]; simpl.
  - rewrite Hx. reflexivity.
  - destruct (p y); [exact IH|reflexivity].
Qed.

Lemma strip_trimmed (s : str) : trimmed (strip s).
Proof.
  unfold strip, rstrip, lstrip. split.
  - intros c rest E. destruct (dropwhile isspace s) as [|x t] eqn:Ht; [discriminate E|].
    pose proof (dropwhile_hd _ _ _ _ Ht) as Hx.
    simpl rev in E. rewrite (dropwhile_snoc _ _ _ Hx), rev_app_distr in E.
    simpl in E. inversion E; subst. exact Hx.
  - intros c init E. apply (f_equal (@rev char)) in E.
    rewrite rev_involutive, rev_app_distr in E. simpl in E.
    apply dropwhile_hd in E. exact E.
Qed.

Lemma flush_utterances (P : str -> Prop) (st : parser_state) :
  (forall s, P (strip s)) ->
  Forall (fun t => P (snd t)) (turns st) ->
  Forall (fun t => P (snd t)) (turns (flush st)).
Proof.
  intros HP H. destruct st as [ts [ty|] lab buf]; unfold flush;
    cbn [cur_type cur_label cur_buf turns] in *; [|exact H].
  apply Forall_app. split; [exact H|]. constructor; [apply HP|constructor].
Qed.

Lemma parse_line_utterances (P : str -> Prop) (st : parser_state) (l : str) :
  (forall s, P (strip s)) ->
  Forall (fun t => P (snd t)) (turns st) ->
  Forall (fun t => P (snd t)) (turns (parse_line st l)).
Proof.
  intros HP H. unfold parse_line.
  destruct (_Q_RE _) as [[q1 q2]|]; [apply flush_utterances; assumption|].
  destruct (_A_RE _) as [[a1 a2]|]; [apply flush_utterances; assumption|].
  destruct (cur_type st); exact H.
Qed.

Lemma parse_utterances (P : str -> Prop) (text : str) :
  (forall s, P (strip s)) ->
  Forall (fun t => P (snd t)) (parse_transcript_to_turns text).
Proof.
  intros HP. unfold parse_transcript_to_turns. apply flush_utterances; [exact HP|].
  generalize (splitlines text) as lines.
  assert (H : Forall (fun t : Turn => P (snd t)) (turns (mkParser [] None None [])))
    by constructor.
  revert H. generalize (mkParser [] None None []) as st.
  intros st H lines. revert st H.
  induction lines as [|l lines IH]; intros st H; [exact H|].
  simpl. apply IH, parse_line_utterances; assumption.
Qed.

(** Extra X5.  No utterance returned by the parser starts or ends with
    whitespace. *)
Theorem utterances_are_trimmed (text : str) (kind label utt : str) :
  In (kind, label, utt) (parse_transcript_to_turns text) -> trimmed utt.
Proof.
  intros Hin. pose proof (parse_utterances trimmed text strip_trimmed) as H.
  rewrite Forall_forall in H. apply (H _ Hin).
Qed.

(** *** Escaping, character by character *)

(** Extra X6.  The three replacements of [escape] amount to one pass that
    rewrites each character on its own: the ampersand and the two angle
    brackets to their entities, any other character to itself.  So
    escaping distributes over concatenation. *)
Theorem escape_is_characterwise (s t : str) :
  escape s = flat_map escape_char s /\ escape (s ++ t) = escape s ++ escape t.
Proof.
  split; [apply escape_flat_map|].
  rewrite !escape_flat_map. apply flat_map_app.
Qed.

(** Extra X7.  [escape] returns a text unchanged exactly when the text
    holds no ampersand and no angle bracket. *)
Theorem escape_fixes_plain_text_only (s : str) :
  escape s = s <-> existsb reserved s = false.
Proof.
  rewrite escape_flat_map. split.
  - intros E. destruct (existsb reserved s) eqn:H; [|reflexivity].
    apply escape_length in H. rewrite E in H. lia.
  - apply escape_plain.
Qed.

(** *** The repaired text *)

Lemma rep_removes_key_le (a h : char) (u new' : str) (n : nat) (s : str) :
  mem a (h :: new') = false -> mem h u = false ->
  (List.length s <= n)%nat ->
  contains (a :: u) (rep (a :: u) (h :: new') s) = false.
Proof.
  intros Ha Hh. revert s. induction n as [|n IH]; intros s Hlen.
  - destruct s; [reflexivity|simpl in Hlen; lia].
  - destruct s as [|x s']; [reflexivity|].
    destruct (startswith (a :: u) (x :: s')) eqn:Hm.
    + apply startswith_inv in Hm. destruct Hm as [rest E]. rewrite E.
      assert (Hr : (List.length rest <= n)%nat).
      { apply (f_equal (@List.length char)) in E. rewrite length_app in E.
        simpl in E, Hlen. lia. }
      rewrite rep_match, contains_free_prefix by exact Ha. apply IH, Hr.
    + rewrite (rep_nomatch _ _ _ _ Hm).
      assert (Hs : (List.length s' <= n)%nat) by (simpl in Hlen; lia).
      cbn [contains]. rewrite (IH s' Hs), orb_false_r.
      destruct (startswith (a :: u) (x :: rep (a :: u) (h :: new') s')) eqn:K;
        [|reflexivity].
      cbn [startswith] in K, Hm. apply andb_prop in K. destruct K as [Kx K].
      rewrite Kx in Hm. cbn [andb] in Hm.
      apply startswith_before_rep in K; [congruence|exact Hh].
Qed.

Lemma removes_ok_sound (r : str * str) (s : str) :
  removes_ok r = true -> contains (fst r) (apply_replacement s r) = false.
Proof.
  destruct r as [[|a u] [|h new']]; try discriminate.
  unfold removes_ok. intros H. apply andb_prop in H. destruct H as [Ha Hh].
  apply negb_true_iff in Ha, Hh.
  rewrite apply_replacement_rep. cbn [fst].
  apply (rep_removes_key_le a h u new' (List.length s)); auto.
Qed.

Lemma replacements_remove : forallb removes_ok replacements = true.
Proof. vm_compute. reflexivity. Qed.

Lemma repair_unchanged (rules : list (str * str)) (content : str) :
  (forall r, In r rules -> contains (fst r) content = false) ->
  apply_replacements rules content = content.
Proof.
  unfold apply_replacements. induction rules as [|[old new] rules IH]; intros H;
    [reflexivity|].
  cbn [fold_left].
  assert (E : apply_replacement content (old, new) = content).
  { pose proof (H (old, new) (or_introl eq_refl)) as K. cbn [fst] in K.
    unfold apply_replacement. rewrite K. reflexivity. }
  rewrite E. apply IH. intros r Hr. apply H. right. exact Hr.
Qed.

Lemma repair_removes_keys (content : str) (r : str * str) :
  In r replacements ->
  contains (fst r) (apply_replacements replacements content) = false.
Proof.
  intros Hin.
  assert (Hok : removes_ok r = true).
  { pose proof replacements_remove as H. rewrite forallb_forall in H. apply H, Hin. }
  destruct (in_split _ _ Hin) as (l1 & l2 & E).
  assert (P : Permutation replacements ((l1 ++ l2) ++ [r])).
  { rewrite E. eapply Permutation_trans; [apply Permutation_sym, Permutation_middle|].
    apply Permutation_cons_append. }
  rewrite <- (repair_any_order _ content P).
  unfold apply_replacements. rewrite fold_left_app. cbn [fold_left].
  apply removes_ok_sound, Hok.
Qed.

(** Extra X8.  After the repair pass no key of the table occurs in the
    text. *)
Theorem repaired_text_has_no_key (content old new : str) :
  In (old, new) replacements ->
  contains old (apply_replacements replacements content) = false.
Proof. intros H. apply (repair_removes_keys content (old, new) H). Qed.

(** Extra X9.  The repair pass is idempotent: a repaired text is left as
    it is by a second pass. *)
Theorem repair_is_idempotent (content : str) :
  apply_replacements replacements (apply_replacements replacements content)
  = apply_replacements replacements content.
Proof. apply repair_unchanged. intros r Hr. apply repair_removes_keys, Hr. Qed.

Lemma triggers_cover (content : str) (r : str * str) :
  (forall c, In c triggers -> mem c content = false) ->
  In r replacements -> contains (fst r) content = false.
Proof.
  intros H Hin.
  assert (Hok : removes_ok r = true).
  { pose proof replacements_remove as K. rewrite forallb_forall in K. apply K, Hin. }
  destruct r as [[|a u] new]; [discriminate Hok|].
  cbn [fst]. apply contains_absent_head, H.
  unfold triggers. apply (in_map (fun r => hd 0 (fst r)) _ _ Hin).
Qed.

Section ReadFacts.
Variable read_bytes : Path -> exn + bytes.
Variable decode_utf_8_sig : bytes -> option str.
Variable decode_cp1252_replace : bytes -> str.

(** Extra X10.  When the file is read and decodes as UTF-8 to a text that
    holds none of the first characters of the keys, [smart_read] returns
    that text unchanged. *)
Theorem smart_read_keeps_plain_text (path : Path) (raw : bytes) (content : str) :
  read_bytes path = inr raw ->
  decode_utf_8_sig raw = Some content ->
  (forall c, In c triggers -> mem c content = false) ->
  smart_read read_bytes decode_utf_8_sig decode_cp1252_replace path = inr content.
Proof.
  intros Hr Hd Hplain. unfold smart_read. rewrite Hr, Hd.
  rewrite repair_unchanged; [reflexivity|].
  intros r Hin. apply (triggers_cover content r Hplain Hin).
Qed.
End ReadFacts.

(** *** Accounts of a run *)

Section RunAccounts.
Variable path_exists : Path -> exn + bool.
Variable read_bytes : Path -> exn + bytes.
Variable joinpath : Path -> str -> Path.
Variable decode_utf_8_sig : bytes -> option str.
Variable decode_cp1252_replace : bytes -> str.
Variable pd_read_csv : Path -> exn + DataFrame (option str).
Variable write_text : Path -> str -> exn + unit.

Local Abbreviation row_step := (process_row path_exists read_bytes joinpath
                                        decode_utf_8_sig decode_cp1252_replace).
Local Abbreviation rows_loop := (process_rows path_exists read_bytes joinpath
                                          decode_utf_8_sig decode_cp1252_replace).
Local Abbreviation transcript := (transcript_for path_exists read_bytes joinpath
                                        decode_utf_8_sig decode_cp1252_replace).
Local Abbreviation rendering := (renders path_exists read_bytes joinpath
                                     decode_utf_8_sig decode_cp1252_replace).
Local Abbreviation generate :=
  (generate_corhoh_xml path_exists read_bytes joinpath decode_utf_8_sig
                       decode_cp1252_replace pd_read_csv write_text).
Local Abbreviation missing := (missing_rows path_exists joinpath).

Lemma process_row_complete (texts_dir : Path) (n i : N) (row : Dict) (st : run_state)
      (t : str) :
  transcript texts_dir row = inr t ->
  exists st', row_step texts_dir n i row st = inr st'.
Proof.
  unfold transcript_for, process_row, transcript_path.
  set (p := joinpath texts_dir _).
  destruct (path_exists p) as [e|[|]]; simpl negb; cbv iota; intros H;
    [discriminate| |].
  - rewrite H. destruct (build_record_xml row t [LF]) as [[xml q] a].
    eexists. reflexivity.
  - destruct (build_record_xml row [] [LF]) as [[xml q] a]. eexists. reflexivity.
Qed.

Lemma process_rows_complete (texts_dir : Path) (n : N) (rows : list Dict) :
  (forall row, In row rows -> exists t, transcript texts_dir row = inr t) ->
  forall i st, exists st', rows_loop texts_dir n i rows st = inr st'.
Proof.
  induction rows as [|row rows IH]; intros H i st.
  - eexists. reflexivity.
  - destruct (H row (or_introl eq_refl)) as [t Ht].
    destruct (process_row_complete texts_dir n i row st t Ht) as [st1 H1].
    cbn [process_rows]. rewrite H1. apply IH. intros r Hr. apply H. right. exact Hr.
Qed.

Lemma rendered_rows_read (texts_dir : Path) (rows : list Dict)
      (rendered : list (str * N * N)) :
  Forall2 (renders path_exists read_bytes joinpath decode_utf_8_sig
                   decode_cp1252_replace texts_dir) rows rendered ->
  forall row, In row rows -> exists t, transcript texts_dir row = inr t.
Proof.
  induction 1 as [|row r rows rendered Hr _ IH]; intros row' Hin; [contradiction|].
  destruct Hin as [<-|Hin]; [|apply IH, Hin].
  destruct Hr as (t & Ht & _). exists t. exact Ht.
Qed.

Lemma renders_functional (texts_dir : Path) (rows : list Dict)
      (r1 r2 : list (str * N * N)) :
  Forall2 (rendering texts_dir) rows r1 ->
  Forall2 (rendering texts_dir) rows r2 -> r1 = r2.
Proof.
  intros H. revert r2.
  induction H as [|row r rows r1 Hr _ IH]; intros r2 H2;
    inversion H2 as [|? r' ? r2' Hr' H2']; subst; [reflexivity|].
  f_equal; [|apply IH; exact H2'].
  destruct Hr as (t & Ht & Hb). destruct Hr' as (t' & Ht' & Hb'). congruence.
Qed.

(** Extra X11.  [generate_corhoh_xml] completes exactly when the metadata
    loads, for every row the test for its transcript file answers and the
    transcript is missing or can be read, and the write of the document,
    with the totals and the fragments of the rows, to the output path
    succeeds. *)
Theorem run_completes_iff_inputs_readable (metadata_csv texts_dir output_xml : Path) :
  (exists result, generate metadata_csv texts_dir output_xml = inr result)
  <-> (exists df rendered,
          read_metadata pd_read_csv metadata_csv = inr df /\
          (forall row, In row (to_dict_records df) ->
                       exists t, transcript texts_dir row = inr t) /\
          Forall2 (rendering texts_dir) (to_dict_records df) rendered /\
          write_text output_xml
            (tei_prologue
             ++ fixed_header_block (sum_N (map q_of rendered))
                                   (sum_N (map a_of rendered)) [LF]
             ++ tei_epilogue (map xml_of rendered)) = inr tt).
Proof.
  unfold generate_corhoh_xml. split.
  - intros [result H].
    destruct (read_metadata pd_read_csv metadata_csv) as [e|df]; [discriminate|].
    destruct (process_rows _ _ _ _ _ texts_dir _ 1 _ _) as [e|st] eqn:Hp;
      [discriminate|].
    destruct (write_text output_xml (tei_document st)) as [e|[]] eqn:Hw;
      [discriminate|].
    apply process_rows_inv in Hp. destruct Hp as (rendered & Hf & Er & Eq & Ea).
    cbn [records total_q total_a app] in Er, Eq, Ea. rewrite N.add_0_l in Eq, Ea.
    rewrite tei_document_layout, Er, Eq, Ea in Hw.
    exists df, rendered. split; [reflexivity|].
    split; [exact (rendered_rows_read _ _ _ Hf)|]. split; [exact Hf|exact Hw].
  - intros (df & rendered & Hdf & Hrows & Hf & Hw). rewrite Hdf.
    destruct (process_rows_complete texts_dir (N.of_nat (List.length (values df)))
                (to_dict_records df) Hrows 1 (mkRun [] 0 0 0 [])) as [st Hst].
    rewrite Hst.
    apply process_rows_inv in Hst. destruct Hst as (rendered' & Hf' & Er & Eq & Ea).
    cbn [records total_q total_a app] in Er, Eq, Ea. rewrite N.add_0_l in Eq, Ea.
    rewrite (renders_functional _ _ _ _ Hf' Hf) in Er, Eq, Ea.
    rewrite tei_document_layout, Er, Eq, Ea, Hw. eexists. reflexivity.
Qed.

Lemma process_row_accounts (texts_dir : Path) (n i : N) (row : Dict) (st st' : run_state) :
  row_step texts_dir n i row st = inr st' ->
  exists new,
    log st' = log st ++ new /\
    Forall (fun r => fst r <> ERROR) new /\
    List.length (filter is_warning new) = List.length (missing texts_dir [row]) /\
    missing_transcripts st'
    = missing_transcripts st + N.of_nat (List.length (missing texts_dir [row])).
Proof.
  unfold process_row, missing_rows, transcript_path. cbn [filter].
  set (p := joinpath texts_dir _).
  destruct (path_exists p) as [e|[|]]; simpl negb; cbv iota; [discriminate| |].
  - destruct (smart_read _ _ _ p) as [e|t]; [discriminate|].
    destruct (build_record_xml row t [LF]) as [[xml q] a].
    intros H. inversion H; subst st'; clear H. cbn [log missing_transcripts].
    destruct (i mod 50 =? 0).
    + eexists. split; [reflexivity|]. cbn. rewrite N.add_0_r.
      repeat split. repeat constructor. discriminate.
    + exists []. rewrite app_nil_r, N.add_0_r. cbn. repeat split. constructor.
  - destruct (build_record_xml row [] [LF]) as [[xml q] a].
    intros H. inversion H; subst st'; clear H. cbn [log missing_transcripts].
    destruct (i mod 50 =? 0).
    + rewrite <- app_assoc. eexists. split; [reflexivity|]. cbn.
      repeat split. repeat constructor; discriminate.
    + eexists. split; [reflexivity|]. cbn.
      repeat split. repeat constructor; discriminate.
Qed.

Lemma missing_rows_cons (texts_dir : Path) (row : Dict) (rows : list Dict) :
  List.length (missing texts_dir (row :: rows))
  = (List.length (missing texts_dir [row]) + List.length (missing texts_dir rows))%nat.
Proof.
  unfold missing_rows. cbn [filter].
  destruct (path_exists _) as [e|[|]]; cbn [List.length]; lia.
Qed.

Lemma process_rows_accounts (texts_dir : Path) (n : N) (rows : list Dict) :
  forall (i : N) (st st' : run_state),
  rows_loop texts_dir n i rows st = inr st' ->
  exists new,
    log st' = log st ++ new /\
    Forall (fun r => fst r <> ERROR) new /\
    List.length (filter is_warning new) = List.length (missing texts_dir rows) /\
    missing_transcripts st'
    = missing_transcripts st + N.of_nat (List.length (missing texts_dir rows)).
Proof.
  induction rows as [|row rows IH]; intros i st st' H.
  - inversion H; subst. exists []. rewrite app_nil_r, N.add_0_r.
    repeat split. constructor.
  - cbn [process_rows] in H.
    destruct (process_row _ _ _ _ _ texts_dir n i row st) as [e|st1] eqn:H1;
      [discriminate|].
    apply process_row_accounts in H1. destruct H1 as (new1 & L1 & E1 & W1 & M1).
    apply IH in H. destruct H as (new2 & L2 & E2 & W2 & M2).
    exists (new1 ++ new2). rewrite L2, L1, M2, M1, missing_rows_cons.
    rewrite filter_app, length_app, W1, W2, <- app_assoc, Nat2N.inj_add.
    repeat split; [apply Forall_app; split; assumption|lia].
Qed.

(** Extra X12.  A completed run logs no error; its warnings are one per
    row without a transcript file, and one more, the summary, when there
    is such a row. *)
Theorem warnings_count_missing_transcripts
        (metadata_csv texts_dir output_xml : Path) (tei : str) (lg : list log_record) :
  generate metadata_csv texts_dir output_xml = inr (tei, lg) ->
  exists df,
    read_metadata pd_read_csv metadata_csv = inr df /\
    Forall (fun r => fst r <> ERROR) lg /\
    List.length (filter is_warning lg)
    = match List.length (missing texts_dir (to_dict_records df)) with
      | O => O
      | S m => S (S m)
      end.
Proof.
  unfold generate_corhoh_xml. intros H.
  destruct (read_metadata pd_read_csv metadata_csv) as [e|df]; [discriminate|].
  destruct (process_rows _ _ _ _ _ texts_dir _ 1 _ _) as [e|st] eqn:Hp;
    [discriminate|].
  destruct (write_text output_xml (tei_document st)) as [e|u]; [discriminate|].
  apply process_rows_accounts in Hp. destruct Hp as (new & L & E & W & M).
  cbn [log missing_transcripts app] in L, M. rewrite N.add_0_l in M.
  exists df. split; [reflexivity|].
  inversion H as [[Ht Hl]]. clear H Ht Hl. rewrite L, M.
  destruct (List.length (missing texts_dir (to_dict_records df))) as [|m] eqn:Em.
  - cbn [N.of_nat N.eqb]. split.
    + repeat (apply Forall_app; split); auto; repeat constructor; discriminate.
    + rewrite !filter_app, !length_app, W. reflexivity.
  - replace (N.of_nat (S m) =? 0) with false
      by (symmetry; apply N.eqb_neq; lia). split.
    + repeat (apply Forall_app; split); auto; repeat constructor; discriminate.
    + rewrite !filter_app, !length_app, W. cbn. lia.
Qed.

(** Extra X13.  For a table without rows the run hands one document to
    the output path: its abstract and its last revision note report 0
    questions and 0 answers, and it ends with an empty corpus element (a
    blank line between its tags) and the closing tag of the root.  If the
    write raises, the run raises the same exception; otherwise the run
    returns that document and has logged the two closing notices only. *)
Theorem empty_table_document (metadata_csv texts_dir output_xml : Path)
        (raw : DataFrame (option str)) :
  pd_read_csv metadata_csv = inr raw ->
  In (txt "Documents ID") (columns raw) ->
  values raw = [] ->
  exists tei,
    tei = tei_prologue ++ fixed_header_block 0 0 [LF] ++ tei_epilogue [] /\
    (exists pre mid post,
        tei = pre
              ++ txt "In this version, the dataset contains 0 questions and 0 answers, providing"
              ++ mid
              ++ txt "Counts updated to 0 questions and 0 answers."
              ++ post
              ++ [LF] ++ txt "    <CORHOH>" ++ [LF] ++ [LF]
              ++ txt "    </CORHOH>" ++ [LF] ++ txt "</TEI>" ++ [LF]) /\
    generate metadata_csv texts_dir output_xml
    = match write_text output_xml tei with
      | inl e => inl e
      | inr _ =>
          inr (tei,
               [ (INFO, txt "Total questions: 0 | Total answers: 0");
                 (INFO, txt "Wrote output: " ++ output_xml) ])
      end.
Proof.
  intros Hraw Hcol Hval.
  exists (tei_prologue ++ fixed_header_block 0 0 [LF] ++ tei_epilogue []).
  split; [reflexivity|]. split.
  - destruct (header_names_totals 0 0 [LF]) as (pre & mid & post & E).
    exists (tei_prologue ++ pre), mid, post. rewrite E, <- !app_assoc.
    reflexivity.
  - unfold generate_corhoh_xml, read_metadata. rewrite Hraw.
    assert (Hc : existsb (str_eqb (txt "Documents ID")) (columns (fillna [] raw)) = true).
    { apply existsb_exists. exists (txt "Documents ID"). split; [exact Hcol|].
      destruct (str_eqb_spec (txt "Documents ID") (txt "Documents ID")); congruence. }
    rewrite Hc. unfold to_dict_records, fillna. cbn [values columns]. rewrite Hval.
    cbn [map process_rows List.length]. rewrite tei_document_layout.
    cbn [records total_q total_a].
    destruct (write_text output_xml _); reflexivity.
Qed.
End RunAccounts.

(** *** The entry point *)

Lemma emitted_threshold (threshold : N) (lg : list log_record) :
  (threshold <= levelno INFO -> emitted threshold lg = lg) /\
  (levelno INFO < threshold -> threshold <= levelno WARNING ->
   emitted threshold lg = filter (fun r => negb (is_info r)) lg).
Proof.
  unfold emitted, is_info. split.
  - intros H. induction lg as [|[l m] lg IH]; [reflexivity|].
    cbn [filter fst]. rewrite IH.
    replace (threshold <=? levelno l) with true; [reflexivity|].
    symmetry. apply N.leb_le. destruct l; cbn [levelno] in *; lia.
  - intros H1 H2. induction lg as [|[l m] lg IH]; [reflexivity|].
    cbn [filter fst]. rewrite IH. destruct l; cbn [negb levelno] in *.
    + replace (threshold <=? 20) with false; [reflexivity|].
      symmetry. apply N.leb_gt. exact H1.
    + replace (threshold <=? 30) with true; [reflexivity|].
      symmetry. apply N.leb_le. exact H2.
    + replace (threshold <=? 40) with true; [reflexivity|].
      symmetry. apply N.leb_le. lia.
Qed.

(** Extra X14.  With the level [configure_logging] sets, every record is
    shown when the verbosity is at least one; otherwise exactly the
    notices (level INFO) are hidden: warnings and errors always show. *)
Theorem verbosity_hides_only_notices (verbosity : Z) (lg : list log_record) :
  emitted (configure_logging verbosity) lg
  = if (1 <=? verbosity)%Z then lg else filter (fun r => negb (is_info r)) lg.
Proof.
  unfold configure_logging.
  destruct (Z.eqb_spec verbosity 1) as [->|H1].
  - cbn [Z.leb Z.compare Pos.compare Pos.compare_cont]. apply emitted_threshold. cbn [levelno]. lia.
  - rewrite Z.geb_leb. destruct (Z.leb_spec 2 verbosity) as [H2|H2].
    + replace (1 <=? verbosity)%Z with true by (symmetry; apply Z.leb_le; lia).
      apply emitted_threshold. unfold DEBUG. cbn [levelno]. lia.
    + replace (1 <=? verbosity)%Z with false by (symmetry; apply Z.leb_gt; lia).
      apply emitted_threshold; cbn [levelno]; lia.
Qed.

Section MainFacts.
Variable path_exists : Path -> exn + bool.
Variable read_bytes : Path -> exn + bytes.
Variable joinpath : Path -> str -> Path.
Variable decode_utf_8_sig : bytes -> option str.
Variable decode_cp1252_replace : bytes -> str.
Variable pd_read_csv : Path -> exn + DataFrame (option str).
Variable write_text : Path -> str -> exn + unit.
Variable parse_args : option (list str) -> exn + Namespace.

Local Abbreviation generate :=
  (generate_corhoh_xml path_exists read_bytes joinpath decode_utf_8_sig
                       decode_cp1252_replace pd_read_csv write_text).
Local Abbreviation run_main :=
  (main path_exists read_bytes joinpath decode_utf_8_sig
        decode_cp1252_replace pd_read_csv write_text parse_args).

End MainFacts.

(** *** Instances of the further properties *)

(** The preamble line of the sample is discarded. *)
Lemma preamble_is_discarded_witness :
  splitlines SampleMore.with_preamble = [txt "Recorded in 1995"] ++ [txt "Q1: Hi"]
  /\ (forall l, In l [txt "Recorded in 1995"] -> marker_line l = None)
  /\ parse_transcript_to_turns SampleMore.with_preamble = parse_lines [txt "Q1: Hi"].
Proof.
  assert (E : splitlines SampleMore.with_preamble
              = [txt "Recorded in 1995"] ++ [txt "Q1: Hi"]) by (vm_compute; reflexivity).
  assert (H : forall l, In l [txt "Recorded in 1995"] -> marker_line l = None).
  { intros l [<-|[]]. vm_compute. reflexivity. }
  split; [exact E|]. split; [exact H|].
  exact (preamble_is_discarded _ _ _ E H).
Defined.

(** The second turn of a transcript of three turns spans two lines. *)
Lemma turn_spans_to_next_marker_witness :
  splitlines SampleMore.three_turns
  = [txt "Q1: Hello"; txt "world"]
    ++ txt "A1: Hi there" :: [txt "again"] ++ [txt "Q2: Bye"]
  /\ marker_line (txt "A1: Hi there") = Some (answer, txt "A1", txt "Hi there")
  /\ (forall l, In l [txt "again"] -> marker_line l = None)
  /\ starts_turn [txt "Q2: Bye"]
  /\ parse_transcript_to_turns SampleMore.three_turns
     = parse_lines [txt "Q1: Hello"; txt "world"]
       ++ (answer, txt "A1", strip (join [LF] [txt "Hi there"; txt "again"]))
          :: parse_lines [txt "Q2: Bye"].
Proof.
  assert (E : splitlines SampleMore.three_turns
              = [txt "Q1: Hello"; txt "world"]
                ++ txt "A1: Hi there" :: [txt "again"] ++ [txt "Q2: Bye"])
    by (vm_compute; reflexivity).
  assert (Hm : marker_line (txt "A1: Hi there")
               = Some (answer, txt "A1", txt "Hi there"))
    by (vm_compute; reflexivity).
  assert (Hn : forall l, In l [txt "again"] -> marker_line l = None).
  { intros l [<-|[]]. vm_compute. reflexivity. }
  assert (Hs : starts_turn [txt "Q2: Bye"]) by (vm_compute; discriminate).
  split; [exact E|]. split; [exact Hm|]. split; [exact Hn|]. split; [exact Hs|].
  exact (turn_spans_to_next_marker _ _ _ _ _ _ _ _ E Hm Hn Hs).
Defined.

(** The second utterance of the sample transcript. *)
Lemma utterances_are_trimmed_witness :
  In (answer, txt "A1", txt "Hi there") (parse_transcript_to_turns Sample.transcript)
  /\ trimmed (txt "Hi there").
Proof.
  assert (H : In (answer, txt "A1", txt "Hi there")
                 (parse_transcript_to_turns Sample.transcript))
    by (vm_compute; auto).
  split; [exact H|]. exact (utterances_are_trimmed _ _ _ _ H).
Defined.

(** A text without reserved characters. *)
Lemma escape_fixes_plain_text_only_witness :
  existsb reserved (txt "Ann") = false /\ escape (txt "Ann") = txt "Ann".
Proof.
  assert (H : existsb reserved (txt "Ann") = false) by reflexivity.
  split; [exact H|]. exact (proj2 (escape_fixes_plain_text_only (txt "Ann")) H).
Defined.

(** The last rule of the table on a text that holds its key. *)
Lemma repaired_text_has_no_key_witness :
  In ([8730; 239], [sq]) replacements
  /\ contains [8730; 239]
       (apply_replacements replacements ([8730; 239] ++ txt "t " ++ [8730; 239])) = false.
Proof.
  assert (H : In ([8730; 239], [sq]) replacements) by (vm_compute; tauto).
  split; [exact H|]. exact (repaired_text_has_no_key _ _ _ H).
Defined.

(** The sample transcript is read as it is. *)
Lemma smart_read_keeps_plain_text_witness :
  exists raw,
    Sample.read_bytes (txt "500_numbered/1.txt") = inr raw
    /\ Sample.decode_utf_8_sig raw = Some Sample.transcript
    /\ (forall c, In c triggers -> mem c Sample.transcript = false)
    /\ smart_read Sample.read_bytes Sample.decode_utf_8_sig
                  Sample.decode_cp1252_replace (txt "500_numbered/1.txt")
       = inr Sample.transcript.
Proof.
  destruct (Sample.read_bytes (txt "500_numbered/1.txt")) as [e|raw] eqn:Hr;
    [vm_compute in Hr; discriminate Hr|].
  assert (Hd : Sample.decode_utf_8_sig raw = Some Sample.transcript).
  { vm_compute in Hr. inversion Hr; subst raw. vm_compute. reflexivity. }
  assert (Hp : forall c, In c triggers -> mem c Sample.transcript = false).
  { intros c Hc. vm_compute in Hc.
    repeat (destruct Hc as [<-|Hc]; [vm_compute; reflexivity|]). contradiction. }
  exists raw. split; [reflexivity|]. split; [exact Hd|]. split; [exact Hp|].
  exact (smart_read_keeps_plain_text Sample.read_bytes Sample.decode_utf_8_sig
           Sample.decode_cp1252_replace _ raw _
           Hr Hd Hp).
Defined.

(** The sample run completes: its inputs are readable and the write
    succeeds. *)
Lemma run_completes_iff_inputs_readable_witness :
  (exists df rendered,
      read_metadata Sample.pd_read_csv Sample.metadata_csv = inr df /\
      (forall row, In row (to_dict_records df) ->
         exists t, transcript_for Sample.path_exists Sample.read_bytes Sample.joinpath
                     Sample.decode_utf_8_sig Sample.decode_cp1252_replace
                     Sample.texts_dir row = inr t) /\
      Forall2 (renders Sample.path_exists Sample.read_bytes Sample.joinpath
                 Sample.decode_utf_8_sig Sample.decode_cp1252_replace
                 Sample.texts_dir)
              (to_dict_records df) rendered /\
      Sample.write_text Sample.output_xml
        (tei_prologue
         ++ fixed_header_block (sum_N (map q_of rendered))
                               (sum_N (map a_of rendered)) [LF]
         ++ tei_epilogue (map xml_of rendered)) = inr tt)
  /\ exists result,
      generate_corhoh_xml Sample.path_exists Sample.read_bytes Sample.joinpath
        Sample.decode_utf_8_sig Sample.decode_cp1252_replace Sample.pd_read_csv
        Sample.write_text
        Sample.metadata_csv Sample.texts_dir Sample.output_xml = inr result.
Proof.
  pose proof (run_completes_iff_inputs_readable Sample.path_exists Sample.read_bytes
                Sample.joinpath Sample.decode_utf_8_sig Sample.decode_cp1252_replace
                Sample.pd_read_csv Sample.write_text Sample.metadata_csv
                Sample.texts_dir Sample.output_xml) as [Hto Hfrom].
  destruct (generate_corhoh_xml Sample.path_exists Sample.read_bytes Sample.joinpath
      Sample.decode_utf_8_sig Sample.decode_cp1252_replace Sample.pd_read_csv
      Sample.write_text
      Sample.metadata_csv Sample.texts_dir Sample.output_xml) as [e|result] eqn:H.
  - vm_compute in H. discriminate H.
  - pose proof (Hto (ex_intro _ result eq_refl)) as K.
    split; [exact K|exact (Hfrom K)].
Defined.

(** The sample run: one row without transcript, two warnings. *)
Lemma warnings_count_missing_transcripts_witness :
  exists tei lg,
    generate_corhoh_xml Sample.path_exists Sample.read_bytes Sample.joinpath
      Sample.decode_utf_8_sig Sample.decode_cp1252_replace Sample.pd_read_csv
      Sample.write_text
      Sample.metadata_csv Sample.texts_dir Sample.output_xml = inr (tei, lg)
    /\ exists df,
      read_metadata Sample.pd_read_csv Sample.metadata_csv = inr df /\
      Forall (fun r => fst r <> ERROR) lg /\
      List.length (filter is_warning lg)
      = match List.length (missing_rows Sample.path_exists Sample.joinpath
                             Sample.texts_dir (to_dict_records df)) with
        | O => O
        | S m => S (S m)
        end.
Proof.
  destruct (generate_corhoh_xml Sample.path_exists Sample.read_bytes Sample.joinpath
      Sample.decode_utf_8_sig Sample.decode_cp1252_replace Sample.pd_read_csv
      Sample.write_text
      Sample.metadata_csv Sample.texts_dir Sample.output_xml) as [e|[tei lg]] eqn:H.
  - vm_compute in H. discriminate H.
  - exists tei, lg. split; [reflexivity|].
    exact (warnings_count_missing_transcripts _ _ _ _ _ _ _ _ _ _ _ _ H).
Defined.

(** A table with its header row only. *)
Lemma empty_table_document_witness :
  SampleMore.pd_read_csv Sample.metadata_csv = inr SampleMore.empty_table
  /\ In (txt "Documents ID") (columns SampleMore.empty_table)
  /\ values SampleMore.empty_table = []
  /\ exists tei,
      tei = tei_prologue ++ fixed_header_block 0 0 [LF] ++ tei_epilogue [] /\
      (exists pre mid post,
          tei = pre
                ++ txt "In this version, the dataset contains 0 questions and 0 answers, providing"
                ++ mid
                ++ txt "Counts updated to 0 questions and 0 answers."
                ++ post
                ++ [LF] ++ txt "    <CORHOH>" ++ [LF] ++ [LF]
                ++ txt "    </CORHOH>" ++ [LF] ++ txt "</TEI>" ++ [LF]) /\
      generate_corhoh_xml Sample.path_exists Sample.read_bytes Sample.joinpath
        Sample.decode_utf_8_sig Sample.decode_cp1252_replace SampleMore.pd_read_csv
        Sample.write_text
        Sample.metadata_csv Sample.texts_dir Sample.output_xml
      = match Sample.write_text Sample.output_xml tei with
        | inl e => inl e
        | inr _ =>
            inr (tei,
                 [ (INFO, txt "Total questions: 0 | Total answers: 0");
                   (INFO, txt "Wrote output: " ++ Sample.output_xml) ])
        end.
Proof.
  assert (H1 : SampleMore.pd_read_csv Sample.metadata_csv = inr SampleMore.empty_table)
    by reflexivity.
  assert (H2 : In (txt "Documents ID") (columns SampleMore.empty_table))
    by (left; reflexivity).
  assert (H3 : values SampleMore.empty_table = []) by reflexivity.
  split; [exact H1|]. split; [exact H2|]. split; [exact H3|].
  exact (empty_table_document Sample.path_exists Sample.read_bytes Sample.joinpath
           Sample.decode_utf_8_sig Sample.decode_cp1252_replace SampleMore.pd_read_csv
           Sample.write_text
           Sample.metadata_csv Sample.texts_dir Sample.output_xml _ H1 H2 H3).
Defined.

